(** * fdbkit.blob: a seekable, chunked blob on an ordered key-value store

    A shallow embedding of [fdbkit/blob.py] (classes [BlobIO], [BlobReader]
    and [BlobWriter]) and the properties of its chunk layout.

    The program is Python 2: [/] on integers is floor division, [buffer] is
    a read-only view of a byte string, and [assert] raises
    [AssertionError].  The FoundationDB subspace of one blob is modelled as
    a finite map from chunk index to chunk value; range scans enumerate it
    in key order. *)

From Stdlib Require Import ZArith List Lia.
From Stdlib.Strings Require Import Byte.
From stdpp Require Import gmap list sorting.

Local Open Scope Z_scope.

(** ** Python values and primitives *)

Abbreviation bytes := (list byte).

(** Exceptions the module can raise.  [RuntimeError] is Python 2's
    "maximum recursion depth exceeded". *)
Inductive exn : Set :=
| IOError
| NotImplementedError
| AssertionError
| ZeroDivisionError
| ValueError
| RuntimeError.

Inductive result (A : Type) : Type :=
| Ok (a : A)
| Raise (e : exn).
Arguments Ok {A} a.
Arguments Raise {A} e.

Module Py.

(** [len(b)] *)
Definition len (b : bytes) : Z := Z.of_nat (length b).

(** Normalisation of a slice bound [i] against a sequence of length [n]:
    negative bounds count from the end, and everything is clamped into
    [0, n]. *)
Definition bound (n i : Z) : Z :=
  if i <? 0 then Z.max (n + i) 0 else Z.min i n.

(** [b[lo:hi]] *)
Definition slice (b : bytes) (lo hi : Z) : bytes :=
  let s := bound (len b) lo in
  let e := bound (len b) hi in
  take (Z.to_nat (e - s)) (drop (Z.to_nat s) b).

(** [b[lo:]] *)
Definition slice_from (b : bytes) (lo : Z) : bytes :=
  drop (Z.to_nat (bound (len b) lo)) b.

(** [b[:hi]] *)
Definition slice_to (b : bytes) (hi : Z) : bytes :=
  take (Z.to_nat (bound (len b) hi)) b.

(** [buffer(data, offset)]: a view of [data] from [offset] on; a negative
    offset is a [ValueError], an offset past the end gives the empty
    view. *)
Definition buffer (data : bytes) (offset : Z) : result bytes :=
  if offset <? 0 then Raise ValueError
  else Ok (drop (Z.to_nat offset) data).

(** [a / b] on Python 2 integers: floor division. *)
Definition div (a b : Z) : result Z :=
  if b =? 0 then Raise ZeroDivisionError else Ok (a / b).

(** [int(math.ceil(float(a) / b))].  The float quotient is taken to be
    exact, which it is for every length below 2^53. *)
Definition ceil_div (a b : Z) : result Z :=
  if b =? 0 then Raise ZeroDivisionError else Ok (- ((- a) / b)).

(** [range(n)] *)
Definition range (n : Z) : list Z := seqZ 0 n.

(** [x == 0] for an optional integer. *)
Definition is_zero (x : option Z) : bool :=
  match x with
  | Some n => n =? 0
  | None => false
  end.

End Py.

(** ** The key-value store

    The keys of one blob are [space.pack((chunk_index,))]; the tuple
    encoding orders them as the integers are ordered.  A store is the
    content of that subspace. *)

Abbreviation store := (gmap Z bytes).

Module Fdb.

(** The keys present, in key order. *)
Definition keys (s : store) : list Z :=
  merge_sort Z.le (elements (dom s)).

(** Key-value pairs of the keys in [ks]. *)
Definition pairs (s : store) (ks : list Z) : list (Z * bytes) :=
  omap (fun k => pair k <$> s !! k) ks.

Definition in_range (lo hi : option Z) (k : Z) : bool :=
  match lo with Some a => a <=? k | None => true end &&
  match hi with Some b => k <=? b | None => true end.

(** A transaction body: it reads and writes the store, and either
    returns a value with the new store or raises. *)
Definition Tx (A : Type) : Type := store -> result (A * store).

Definition ret {A} (a : A) : Tx A := fun s => Ok (a, s).

Definition raise {A} (e : exn) : Tx A := fun _ => Raise e.

Definition bind {A B} (m : Tx A) (k : A -> Tx B) : Tx B :=
  fun s =>
    match m s with
    | Ok (a, s') => k a s'
    | Raise e => Raise e
    end.

Definition lift {A} (r : result A) : Tx A :=
  fun s =>
    match r with
    | Ok a => Ok (a, s)
    | Raise e => Raise e
    end.

(** [assert b] *)
Definition assert (b : bool) : Tx unit :=
  if b then ret tt else raise AssertionError.

(** [tr[key]]: the value, or an absent value. *)
Definition get (k : Z) : Tx (option bytes) :=
  fun s => Ok (s !! k, s).

(** [tr[key] = value] *)
Definition set (k : Z) (v : bytes) : Tx unit :=
  fun s => Ok (tt, <[k := v]> s).

(** [tr.get_range(begin, end, limit, reverse)] over the blob's subspace.
    [lo = None] is [range().start], [lo = Some a] is the key of chunk
    [a]; [hi = None] is [range().stop], [hi = Some b] is
    [first_greater_than] of the key of chunk [b], so chunk [b] is
    included.  [limit = 0] means no limit.  An inverted range is
    empty. *)
Definition get_range (lo hi : option Z) (limit : nat) (reverse : bool)
  : Tx (list (Z * bytes)) :=
  fun s =>
    let ks := filter (fun k => Is_true (in_range lo hi k)) (keys s) in
    let ks := if reverse then rev ks else ks in
    let ks := match limit with O => ks | _ => take limit ks end in
    Ok (pairs s ks, s).

(** [@fdb.transactional] applied to a database: the body runs in a fresh
    transaction which is committed when the body returns; when it raises
    nothing is committed. *)
Definition transactional {A} (body : Tx A) (db : store) : result (A * store) :=
  body db.

End Fdb.

Declare Scope tx_scope.
Delimit Scope tx_scope with tx.
Notation "x <- m ;; k" := (Fdb.bind m (fun x => k))
  (at level 100, m at next level, right associativity) : tx_scope.
Notation "m ;;; k" := (Fdb.bind m (fun _ => k))
  (at level 100, right associativity) : tx_scope.
Local Open Scope tx_scope.

(** ** BlobIO *)

(** [os.SEEK_SET], [os.SEEK_CUR], [os.SEEK_END] *)
Definition SEEK_SET : Z := 0.
Definition SEEK_CUR : Z := 1.
Definition SEEK_END : Z := 2.

Record BlobIO : Set := mkBlobIO {
  _chunk_size : Z;
  _cursor : Z;
  _closed : bool
}.

(** [BlobIO.__init__] *)
Definition init (chunk_size : Z) : BlobIO :=
  {| _chunk_size := chunk_size; _cursor := 0; _closed := false |}.

Definition set_cursor (self : BlobIO) (cursor : Z) : BlobIO :=
  {| _chunk_size := _chunk_size self; _cursor := cursor; _closed := _closed self |}.

(** [BlobIO.tell] *)
Definition tell (self : BlobIO) : result Z := Ok (_cursor self).

(** [BlobIO.close] *)
Definition close (self : BlobIO) : BlobIO :=
  {| _chunk_size := _chunk_size self; _cursor := _cursor self; _closed := true |}.

(** [BlobIO.closed] *)
Definition closed (self : BlobIO) : bool := _closed self.

(** [BlobIO._get_size]: a reverse scan of the subspace limited to one
    pair. *)
Definition _get_size (chunk_size : Z) : Fdb.Tx Z :=
  kvs <- Fdb.get_range None None 1 true ;;
  Fdb.ret (fold_left
             (fun (l : Z) (kv : Z * bytes) =>
                let last_chunk_index := fst kv in
                let last_chunk_cursor := last_chunk_index * chunk_size in
                last_chunk_cursor + Py.len (snd kv))
             kvs 0).

(** [BlobIO._seek] *)
Definition _seek (chunk_size current cursor whence : Z) : Fdb.Tx Z :=
  l <- _get_size chunk_size ;;
  new_cursor <-
    (if whence =? SEEK_SET then Fdb.ret cursor
     else if whence =? SEEK_CUR then Fdb.ret (current + cursor)
     else if whence =? SEEK_END then Fdb.ret (l + cursor)
     else Fdb.raise NotImplementedError) ;;
  Fdb.ret (Z.min (Z.max new_cursor 0) l).

(** [BlobIO.seek]: the handle is updated only when [_seek] returns. *)
Definition seek (self : BlobIO) (cursor whence : Z) (db : store)
  : result (BlobIO * store) :=
  if _closed self then Raise IOError
  else
    match Fdb.transactional
            (_seek (_chunk_size self) (_cursor self) cursor whence) db with
    | Ok (c, db') => Ok (set_cursor self c, db')
    | Raise e => Raise e
    end.

(** ** BlobReader *)

(** The loop of [_read_chunk] over the scanned pairs; [size] is rebound as
    the loop goes and [buf] is the [BytesIO] written so far. *)
Fixpoint read_loop (chunk_size : Z) (kvs : list (Z * bytes))
    (size : option Z) (cursor : Z) (buf : bytes) : bytes * Z :=
  match kvs with
  | [] => (buf, cursor)
  | (chunk_index, v) :: kvs' =>
      let start_cursor := chunk_index * chunk_size in
      if cursor >=? start_cursor then
        let chunk := Py.slice_from v (cursor - start_cursor) in
        let chunk_len := Py.len chunk in
        let '(chunk, chunk_len, size) :=
          match size with
          | Some n =>
              if negb (n =? 0) then
                if n <? chunk_len then (Py.slice_to chunk n, n, size)
                else (chunk, chunk_len, Some (n - chunk_len))
              else (chunk, chunk_len, size)
          | None => (chunk, chunk_len, size)
          end in
        let cursor := cursor + chunk_len in
        let buf := buf ++ chunk in
        if Py.is_zero size then (buf, cursor)
        else read_loop chunk_size kvs' size cursor buf
      else read_loop chunk_size kvs' size cursor buf
  end.

(** [BlobReader._read_chunk] *)
Definition _read_chunk (chunk_size cursor : Z) (size : option Z)
  : Fdb.Tx (bytes * Z) :=
  start_chunk <- Fdb.lift (Py.div cursor chunk_size) ;;
  end_key <-
    match size with
    | Some n =>
        if negb (n =? 0) then
          end_chunk <- Fdb.lift (Py.div (cursor + n) chunk_size) ;;
          Fdb.ret (Some end_chunk)
        else Fdb.ret None
    | None => Fdb.ret None
    end ;;
  kvs <- Fdb.get_range (Some start_chunk) end_key 0 false ;;
  Fdb.ret (read_loop chunk_size kvs size cursor []).

(** [BlobReader.read] *)
Definition read (self : BlobIO) (size : option Z) (db : store)
  : result (bytes * BlobIO * store) :=
  if _closed self then Raise IOError
  else
    match Fdb.transactional
            (_read_chunk (_chunk_size self) (_cursor self) size) db with
    | Ok ((buf, cursor), db') => Ok (buf, set_cursor self cursor, db')
    | Raise e => Raise e
    end.

(** ** BlobWriter *)

(** The [for i in range(chunks)] loop of [_write]. *)
Fixpoint write_loop (chunk_size : Z) (data : bytes) (idxs : list Z)
    (chunk_index cursor : Z) : Fdb.Tx Z :=
  match idxs with
  | [] => Fdb.ret cursor
  | i :: idxs' =>
      let chunk := Py.slice data (i * chunk_size) ((i + 1) * chunk_size) in
      let this_chunk_size := Py.len chunk in
      Fdb.assert (this_chunk_size <=? chunk_size) ;;;
      Fdb.set chunk_index chunk ;;;
      write_loop chunk_size data idxs' (chunk_index + 1) (cursor + Py.len chunk)
  end.

(** [BlobWriter._write] called with a transaction: the recursive call runs
    in the same transaction.  [depth] bounds the recursion. *)
Fixpoint _write_rec (depth : nat) (chunk_size cursor : Z) (data : bytes)
  : Fdb.Tx Z :=
  match depth with
  | O => Fdb.raise RuntimeError
  | S depth' =>
      let buf := data in
      chunks <- Fdb.lift (Py.ceil_div (Py.len buf) chunk_size) ;;
      chunk_index <- Fdb.lift (Py.div cursor chunk_size) ;;
      let start_cursor := chunk_index * chunk_size in
      if negb (start_cursor =? cursor) then
        let next_cursor := start_cursor + chunk_size in
        chunk <- Fdb.get chunk_index ;;
        match chunk with
        | None => Fdb.raise AssertionError
        | Some chunk =>
            let new_chunk :=
              Py.slice chunk 0 (cursor - start_cursor)
              ++ Py.slice buf 0 (next_cursor - cursor) in
            Fdb.set chunk_index new_chunk ;;;
            buf <- Fdb.lift (Py.buffer data (next_cursor - cursor)) ;;
            let cursor :=
              if Py.len new_chunk =? chunk_size then next_cursor
              else start_cursor + Py.len new_chunk in
            if Py.len buf =? 0 then Fdb.ret cursor
            else _write_rec depth' chunk_size cursor buf
        end
      else
        write_loop chunk_size data (Py.range chunks) chunk_index cursor
  end.

(** Python's default recursion limit. *)
Definition recursion_limit : nat := 1000.

(** [BlobWriter._write] *)
Definition _write (chunk_size cursor : Z) (data : bytes) : Fdb.Tx Z :=
  _write_rec recursion_limit chunk_size cursor data.

(** [BlobWriter.write] *)
Definition write (self : BlobIO) (data : bytes) (db : store)
  : result (BlobIO * store) :=
  if _closed self then Raise IOError
  else
    match Fdb.transactional
            (_write (_chunk_size self) (_cursor self) data) db with
    | Ok (c, db') => Ok (set_cursor self c, db')
    | Raise e => Raise e
    end.

(** ** Sequences of operations on one handle

    A method call that raises leaves the handle and the database as they
    were: the assignment to [self._cursor] happens after the transactional
    call has returned, and a transaction whose body raises is not
    committed. *)

Inductive op : Set :=
| OpWrite (data : bytes)
| OpSeek (cursor whence : Z).

Definition exec (o : op) (w : BlobIO * store) : BlobIO * store :=
  match o with
  | OpWrite data =>
      match write (fst w) data (snd w) with
      | Ok w' => w'
      | Raise _ => w
      end
  | OpSeek cursor whence =>
      match seek (fst w) cursor whence (snd w) with
      | Ok w' => w'
      | Raise _ => w
      end
  end.

Definition run (ops : list op) (w : BlobIO * store) : BlobIO * store :=
  fold_left (fun w o => exec o w) ops w.

(** The cursor of the handle is at the end of the blob: [size()] would
    return it. *)
Definition at_end (w : BlobIO * store) : Prop :=
  _get_size (_chunk_size (fst w)) (snd w) = Ok (_cursor (fst w), snd w).

Definition is_write (o : op) : Prop :=
  match o with
  | OpWrite _ => True
  | OpSeek _ _ => False
  end.

(** Every write of [ops], run from [w], is issued with the cursor at the
    end of the blob. *)
Fixpoint writes_at_end (ops : list op) (w : BlobIO * store) : Prop :=
  match ops with
  | [] => True
  | o :: ops' =>
      (is_write o -> at_end w) /\ writes_at_end ops' (exec o w)
  end.

(** ** The data model of the specification *)

(** [k] is the highest chunk index present. *)
Definition highest (s : store) (k : Z) : Prop :=
  is_Some (s !! k) /\ forall k', is_Some (s !! k') -> k' <= k.

(** Every chunk except the highest-indexed one has length exactly
    [chunk_size]; the highest-indexed one has length in (0, chunk_size]. *)
Definition chunk_invariant (chunk_size : Z) (s : store) : Prop :=
  forall k v, s !! k = Some v ->
    (highest s k -> 0 < Py.len v <= chunk_size) /\
    (~ highest s k -> Py.len v = chunk_size).

(** Chunk indices are contiguous from zero. *)
Definition contiguous (s : store) : Prop :=
  forall k, is_Some (s !! k) -> 0 <= k /\ forall k', 0 <= k' <= k -> is_Some (s !! k').

(** The chunk of [data] with index [i]. *)
Definition chunk_of (chunk_size : Z) (data : bytes) (i : Z) : bytes :=
  Py.slice data (i * chunk_size) ((i + 1) * chunk_size).

(** [data] cut into chunks: as many as [ceil(len(data) / chunk_size)]. *)
Definition chunks (chunk_size : Z) (data : bytes) : list bytes :=
  chunk_of chunk_size data <$> seqZ 0 (- ((- Py.len data) / chunk_size)).

(** The blob that holds exactly the byte sequence [data]. *)
Definition store_of (chunk_size : Z) (data : bytes) : store :=
  map_seqZ 0 (chunks chunk_size data).

(** A handle of chunk size [cs] on a store that is the blob of some byte
    sequence. *)
Definition wf_state (cs : Z) (w : BlobIO * store) : Prop :=
  _chunk_size (fst w) = cs /\ exists B, snd w = store_of cs B.

(** The byte stored at offset [p] of the blob, if any: byte
    [in_chunk_offset(p)] of chunk [chunk_index(p)]. *)
Definition byte_at (chunk_size : Z) (s : store) (p : Z) : option byte :=
  s !! (p / chunk_size) ≫= fun v => v !! Z.to_nat (p mod chunk_size).

(** The bytes of a blob: its chunk values in index order. *)
Definition blob_bytes (s : store) : bytes :=
  concat (snd <$> Fdb.pairs s (Fdb.keys s)).

(** Sample data. *)
Definition b_abcd : bytes := [x61; x62; x63; x64].
Definition b_efg : bytes := [x65; x66; x67].
Definition b_efgh : bytes := [x65; x66; x67; x68].
Definition b_abcdefg : bytes := b_abcd ++ b_efg.
Definition b_abcdefgh : bytes := b_abcd ++ b_efgh.
Definition b_X : bytes := [x58].
Definition st_abcdefg : store := <[1 := b_efg]> (<[0 := b_abcd]> ∅).
Definition st_abcdefgh : store := <[1 := b_efgh]> (<[0 := b_abcd]> ∅).
Definition st_abcdefghi : store := <[2 := [x69]]> st_abcdefgh.

(** ** BlobManager *)

(** [DEFAULT_CHUNK_SIZE] *)
Definition DEFAULT_CHUNK_SIZE : Z := 1024 * 10.

(** [del tr[space.range()]]: every key of the subspace is cleared. *)
Definition clear_range : Fdb.Tx unit := fun _ => Ok (tt, ∅).

(** [with handle as h: return body(h)]: [__enter__] returns the handle
    itself; [__exit__] closes it and returns [False], so that an exception
    of the body goes on to the caller.  The handle is not visible outside
    the block. *)
Definition with_handle {A} (handle : BlobIO)
    (body : BlobIO -> store -> result (A * BlobIO * store)) (s : store)
  : result (A * store) :=
  match body handle s with
  | Ok (a, h, s') => let closed_handle := close h in Ok (a, s')
  | Raise e => Raise e
  end.

Module BlobManager.

Section WithKeys.

(** Blob keys.  [space[key]] is the subspace of the tuples that start with
    [key]: the subspaces of different keys share no key. *)
Context `{Countable K}.

(** The content of [space[key]] in a database.  The database holds, for
    each blob key, the chunks stored under it; a blob without chunks is a
    key that is absent or bound to the empty map. *)
Definition subspace (db : gmap K store) (key : K) : store :=
  default ∅ (db !! key).

(** An operation on the subspace of [key], run against the database. *)
Definition on_blob {A} (key : K) (f : store -> result (A * store))
    (db : gmap K store) : result (A * gmap K store) :=
  match f (subspace db key) with
  | Ok (a, s) => Ok (a, <[key := s]> db)
  | Raise e => Raise e
  end.

(** [BlobManager.get_reader], [BlobManager.get_writer]: a fresh handle of
    the manager's chunk size (on [space[key]]). *)
Definition get_reader (chunk_size : Z) (key : K) : BlobIO := init chunk_size.
Definition get_writer (chunk_size : Z) (key : K) : BlobIO := init chunk_size.

(** [BlobManager.read] *)
Definition read (chunk_size : Z) (key : K) (db : gmap K store)
  : result (bytes * gmap K store) :=
  on_blob key
    (with_handle (get_reader chunk_size key)
       (fun reader s => read reader None s))
    db.

(** [BlobManager.write]; [writer.write] returns [None]. *)
Definition write (chunk_size : Z) (key : K) (data : bytes) (db : gmap K store)
  : result (unit * gmap K store) :=
  on_blob key
    (with_handle (get_writer chunk_size key)
       (fun writer s =>
          match write writer data s with
          | Ok (writer', s') => Ok (tt, writer', s')
          | Raise e => Raise e
          end))
    db.

(** [BlobManager._delete] and [BlobManager.delete] *)
Definition _delete (key : K) (db : gmap K store)
  : result (unit * gmap K store) :=
  on_blob key (Fdb.transactional clear_range) db.

Definition delete (key : K) (db : gmap K store) : result (unit * gmap K store) :=
  _delete key db.

(** [BlobManager.exists]: one pair from the end of the subspace, if there
    is any. *)
Definition exists_ (key : K) (db : gmap K store) : result bool :=
  match Fdb.get_range None None 1 true (subspace db key) with
  | Ok (kvs, _) => Ok (0 <? Z.of_nat (length kvs))
  | Raise e => Raise e
  end.

End WithKeys.

End BlobManager.

(** ** fdbfs.blob, the earlier module

    Its [BlobWriter._write] is the text of [fdbkit.blob]'s, so [_write]
    above is reused; its reader returns one stored chunk. *)

Module Fdbfs.

Record BlobReader : Set := mkBlobReader {
  reader_chunk_size : Z;
  reader_cursor : Z
}.

Record BlobWriter : Set := mkBlobWriter {
  writer_chunk_size : Z;
  writer_cursor : Z
}.

(** [BlobReader.__init__], [BlobWriter.__init__] *)
Definition reader_init (chunk_size : Z) : BlobReader :=
  {| reader_chunk_size := chunk_size; reader_cursor := 0 |}.
Definition writer_init (chunk_size : Z) : BlobWriter :=
  {| writer_chunk_size := chunk_size; writer_cursor := 0 |}.

(** [BlobReader._read_chunk]: the value stored for the chunk of the
    cursor, absent when there is none. *)
Definition _read_chunk (chunk_size cursor : Z) : Fdb.Tx (option bytes) :=
  chunk_index <- Fdb.lift (Py.div cursor chunk_size) ;;
  Fdb.get chunk_index.

(** [BlobReader.read]: [size] is not used and the cursor stays. *)
Definition read (self : BlobReader) (size : option Z) (db : store)
  : result (option bytes * BlobReader * store) :=
  match Fdb.transactional
          (_read_chunk (reader_chunk_size self) (reader_cursor self)) db with
  | Ok (chunk, db') => Ok (chunk, self, db')
  | Raise e => Raise e
  end.

(** [BlobReader.seek]: the cursor is set as given. *)
Definition seek (self : BlobReader) (cursor : Z) : BlobReader :=
  {| reader_chunk_size := reader_chunk_size self; reader_cursor := cursor |}.

(** [BlobReader.tell], [BlobWriter.tell] *)
Definition reader_tell (self : BlobReader) : Z := reader_cursor self.
Definition writer_tell (self : BlobWriter) : Z := writer_cursor self.

(** [BlobWriter.write] *)
Definition write (self : BlobWriter) (data : bytes) (db : store)
  : result (BlobWriter * store) :=
  match Fdb.transactional
          (_write (writer_chunk_size self) (writer_cursor self) data) db with
  | Ok (c, db') =>
      Ok ({| writer_chunk_size := writer_chunk_size self; writer_cursor := c |},
          db')
  | Raise e => Raise e
  end.

(** [BlobWriter.seek] is [pass]. *)
Definition writer_seek (self : BlobWriter) (cursor : Z) : BlobWriter := self.

End Fdbfs.

(** * Properties *)

(** ** Python primitives *)

Section PyFacts.

Implicit Types b : bytes.

Lemma len_nonneg b : 0 <= Py.len b.
Proof. unfold Py.len. lia. Qed.

Lemma len_app b1 b2 : Py.len (b1 ++ b2) = Py.len b1 + Py.len b2.
Proof. unfold Py.len. rewrite length_app. lia. Qed.

Lemma len_nil_inv b : Py.len b = 0 -> b = [].
Proof. unfold Py.len. destruct b; simpl; [done | lia]. Qed.

Lemma len_take b n : 0 <= n -> Py.len (take (Z.to_nat n) b) = Z.min n (Py.len b).
Proof. intros. unfold Py.len. rewrite length_take. lia. Qed.

Lemma len_drop b n : 0 <= n -> Py.len (drop (Z.to_nat n) b) = Z.max 0 (Py.len b - n).
Proof. intros. unfold Py.len. rewrite length_drop. lia. Qed.

Lemma slice_nonneg b lo hi :
  0 <= lo -> lo <= hi ->
  Py.slice b lo hi = take (Z.to_nat (hi - lo)) (drop (Z.to_nat lo) b).
Proof.
  intros Hlo Hhi. unfold Py.slice, Py.bound.
  destruct (Z.ltb_spec lo 0); [lia |].
  destruct (Z.ltb_spec hi 0); [lia |].
  destruct (Z_le_gt_dec (Py.len b) lo) as [Hge | Hlt].
  - rewrite !(drop_ge b) by (unfold Py.len in *; lia).
    by rewrite !take_nil.
  - rewrite (Z.min_l lo) by lia.
    destruct (Z_le_gt_dec hi (Py.len b)).
    + by rewrite (Z.min_l hi) by lia.
    + rewrite (Z.min_r hi) by lia.
      rewrite !take_ge; [done | |]; rewrite length_drop; unfold Py.len in *; lia.
Qed.

Lemma slice_0 b hi :
  0 <= hi -> Py.slice b 0 hi = take (Z.to_nat hi) b.
Proof. intros. rewrite slice_nonneg by lia. by rewrite Z.sub_0_r. Qed.

Lemma slice_from_nonneg b lo :
  0 <= lo -> Py.slice_from b lo = drop (Z.to_nat lo) b.
Proof.
  intros. unfold Py.slice_from, Py.bound.
  destruct (Z.ltb_spec lo 0); [lia |].
  destruct (Z_le_gt_dec lo (Py.len b)).
  - by rewrite Z.min_l by lia.
  - rewrite Z.min_r by lia. rewrite !drop_ge; [done | |]; unfold Py.len in *; lia.
Qed.

Lemma slice_to_nonneg b hi :
  0 <= hi -> Py.slice_to b hi = take (Z.to_nat hi) b.
Proof.
  intros. unfold Py.slice_to, Py.bound.
  destruct (Z.ltb_spec hi 0); [lia |].
  destruct (Z_le_gt_dec hi (Py.len b)).
  - by rewrite Z.min_l by lia.
  - rewrite Z.min_r by lia. rewrite !take_ge; [done | |]; unfold Py.len in *; lia.
Qed.

(** The chunk of a cursor: its base is at or below the cursor and less
    than one chunk away. *)
Lemma chunk_base_bounds cs cursor :
  0 < cs -> cursor / cs * cs <= cursor < cursor / cs * cs + cs.
Proof.
  intros. pose proof (Z.mul_div_le cursor cs).
  pose proof (Z.mul_succ_div_gt cursor cs). lia.
Qed.

End PyFacts.

(** ** The ordered store *)

Section FdbFacts.

Implicit Types (s : store) (l : list Z).

Lemma sorted_le_lt l : StronglySorted Z.le l -> NoDup l -> StronglySorted Z.lt l.
Proof.
  induction 1 as [| x l Hs IH Hx]; intros Hnd; [constructor |].
  apply NoDup_cons in Hnd as [Hnotin Hnd].
  constructor; [by apply IH |].
  rewrite Forall_forall in Hx |- *. intros y Hy.
  assert (x <> y) by (intros ->; done).
  specialize (Hx y Hy). lia.
Qed.

Lemma sorted_lt_le l : StronglySorted Z.lt l -> StronglySorted Z.le l.
Proof.
  induction 1 as [| x l Hs IH Hx]; constructor; [done |].
  eapply Forall_impl; [exact Hx |]. simpl. lia.
Qed.

Lemma sorted_lt_NoDup l : StronglySorted Z.lt l -> NoDup l.
Proof.
  induction 1 as [| x l Hs IH Hx]; [constructor |].
  apply NoDup_cons. split; [| done].
  rewrite Forall_forall in Hx. intros Hin. specialize (Hx x Hin). lia.
Qed.

Lemma sorted_lt_filter (P : Z -> Prop) `{!forall k, Decision (P k)} l :
  StronglySorted Z.lt l -> StronglySorted Z.lt (filter P l).
Proof.
  induction 1 as [| x l Hs IH Hx]; [constructor |].
  rewrite filter_cons. destruct (decide (P x)); [| done].
  constructor; [done |].
  rewrite Forall_forall in Hx |- *. intros y Hy.
  apply list_elem_of_filter in Hy as [_ Hy]. by apply Hx.
Qed.

(** A strictly increasing list is determined by its elements. *)
Lemma sorted_lt_unique l1 l2 :
  StronglySorted Z.lt l1 -> StronglySorted Z.lt l2 ->
  (forall k, k ∈ l1 <-> k ∈ l2) -> l1 = l2.
Proof.
  intros H1 H2 Hiff.
  apply (Sorted_unique Z.le);
    [by apply StronglySorted_Sorted, sorted_lt_le
    |by apply StronglySorted_Sorted, sorted_lt_le |].
  apply NoDup_Permutation; auto using sorted_lt_NoDup.
Qed.

Lemma elem_of_keys s k : k ∈ Fdb.keys s <-> is_Some (s !! k).
Proof.
  unfold Fdb.keys. rewrite merge_sort_Permutation, elem_of_elements.
  apply elem_of_dom.
Qed.

Lemma keys_sorted s : StronglySorted Z.lt (Fdb.keys s).
Proof.
  unfold Fdb.keys. apply sorted_le_lt.
  - apply StronglySorted_merge_sort; apply _.
  - rewrite merge_sort_Permutation. apply NoDup_elements.
Qed.

(** The scan of a key range: the keys present within the range, in
    increasing order, and nothing else. *)
Lemma scan_unique s lo hi l :
  StronglySorted Z.lt l ->
  (forall k, k ∈ l <-> is_Some (s !! k) /\ Fdb.in_range lo hi k = true) ->
  filter (fun k => Is_true (Fdb.in_range lo hi k)) (Fdb.keys s) = l.
Proof.
  intros Hl Hiff. apply sorted_lt_unique; [| done |].
  - apply sorted_lt_filter, keys_sorted.
  - intros k. rewrite list_elem_of_filter, elem_of_keys, Hiff, Is_true_true.
    tauto.
Qed.

Lemma scan_all s :
  filter (fun k => Is_true (Fdb.in_range None None k)) (Fdb.keys s) = Fdb.keys s.
Proof.
  apply scan_unique; [apply keys_sorted |].
  intros k. rewrite elem_of_keys. simpl. tauto.
Qed.

Lemma keys_unique s l :
  StronglySorted Z.lt l -> (forall k, k ∈ l <-> is_Some (s !! k)) ->
  Fdb.keys s = l.
Proof.
  intros Hl Hiff. rewrite <- scan_all. apply scan_unique; [done |].
  intros k. rewrite Hiff. simpl. tauto.
Qed.

Lemma keys_empty : Fdb.keys ∅ = [].
Proof.
  apply keys_unique; [constructor |].
  intros k. rewrite lookup_empty, elem_of_nil. split; [done | by intros [? ?]].
Qed.

(** The last key in order is the highest one. *)
Lemma keys_snoc_highest s l h : Fdb.keys s = l ++ [h] -> highest s h.
Proof.
  intros Hk. pose proof (keys_sorted s) as Hs. rewrite Hk in Hs.
  split.
  - apply elem_of_keys. rewrite Hk. set_solver.
  - intros k' Hk'. apply elem_of_keys in Hk'. rewrite Hk in Hk'.
    apply elem_of_app in Hk' as [Hin | Hin].
    + apply StronglySorted_app in Hs as (Hlt & _ & _).
      specialize (Hlt k' h Hin). unfold Z.lt in *. 
      assert (k' < h) by (apply Hlt; set_solver). lia.
    + apply list_elem_of_singleton in Hin. lia.
Qed.

Lemma highest_unique s h h' : highest s h -> highest s h' -> h = h'.
Proof. intros [H1 H2] [H1' H2']. specialize (H2 _ H1'). specialize (H2' _ H1). lia. Qed.

Lemma keys_nil_empty s : Fdb.keys s = [] -> s = ∅.
Proof.
  intros Hk. apply map_empty. intros k.
  apply eq_None_not_Some. rewrite <- elem_of_keys, Hk. apply not_elem_of_nil.
Qed.

Lemma pairs_cons s k v ks :
  s !! k = Some v -> Fdb.pairs s (k :: ks) = (k, v) :: Fdb.pairs s ks.
Proof. intros Hk. unfold Fdb.pairs. simpl. by rewrite Hk. Qed.

Lemma pairs_nil s : Fdb.pairs s [] = [].
Proof. done. Qed.

End FdbFacts.

(** ** Size and seek *)

Section SizeSeek.

Implicit Types (s db : store) (self : BlobIO).

Lemma get_size_run cs s :
  _get_size cs s =
  Ok (match last (Fdb.keys s) with
      | Some h => h * cs + Py.len (default [] (s !! h))
      | None => 0
      end, s).
Proof.
  unfold _get_size, Fdb.bind, Fdb.get_range, Fdb.ret. rewrite scan_all.
  destruct (last (Fdb.keys s)) as [h |] eqn:E.
  - apply last_Some in E as [l E].
    destruct (keys_snoc_highest _ _ _ E) as [[v Hv] _].
    rewrite E, rev_unit. unfold Fdb.pairs. simpl. rewrite Hv. simpl.
    done.
  - apply last_None in E. by rewrite E.
Qed.

(** [_get_size] never raises and never changes the store. *)
Lemma get_size_total cs s : exists l, _get_size cs s = Ok (l, s).
Proof. rewrite get_size_run. eauto. Qed.

Lemma get_size_highest cs s h v :
  s !! h = Some v -> highest s h ->
  _get_size cs s = Ok (h * cs + Py.len v, s).
Proof.
  intros Hv Hh. rewrite get_size_run.
  destruct (last (Fdb.keys s)) as [h' |] eqn:E.
  - apply last_Some in E as [l E].
    pose proof (highest_unique s h h' Hh (keys_snoc_highest _ _ _ E)) as <-.
    by rewrite Hv.
  - apply last_None, keys_nil_empty in E. subst s. by rewrite lookup_empty in Hv.
Qed.

Lemma get_size_empty cs : _get_size cs ∅ = Ok (0, ∅).
Proof. rewrite get_size_run. by rewrite keys_empty. Qed.

End SizeSeek.

(** C5.  Size resolution: for every blob state, [_get_size] returns 0 when
    the blob has no chunks, and otherwise the highest chunk index times
    [chunk_size] plus the length of that chunk's value; the store it
    returns is the store it was given. *)
Theorem get_size_resolution (chunk_size : Z) (s : store) :
  (s = ∅ /\ _get_size chunk_size s = Ok (0, s)) \/
  (exists h v, s !! h = Some v /\ highest s h /\
     _get_size chunk_size s = Ok (h * chunk_size + Py.len v, s)).
Proof.
  destruct (last (Fdb.keys s)) as [h |] eqn:E.
  - right. apply last_Some in E as [l E].
    pose proof (keys_snoc_highest _ _ _ E) as Hh.
    destruct Hh as [[v Hv] Hmax]. exists h, v.
    split; [done |]. split; [by split; [eexists |] |].
    apply get_size_highest; [done |]. by split; [eexists |].
  - left. apply last_None, keys_nil_empty in E. subst s.
    split; [done |]. apply get_size_empty.
Qed.



(** ** Closed handles *)

(** C9.  After [close()], [read], [write] and [seek] raise [IOError]
    whatever their arguments; [tell] has no such check and returns the
    cursor of the closed handle. *)
Theorem closed_handle_access (self : BlobIO) (size : option Z) (data : bytes)
    (cursor whence : Z) (db : store) :
  read (close self) size db = Raise IOError /\
  write (close self) data db = Raise IOError /\
  seek (close self) cursor whence db = Raise IOError /\
  tell (close self) = Ok (_cursor self).
Proof. repeat split. Qed.

(** ** The writer *)

Section Writer.

Implicit Types (s : store) (data old : bytes).

(** One call of [_write] at a cursor that is not chunk-aligned, when the
    chunk is present: the chunk is replaced by its first
    [cursor - start_cursor] bytes followed by the input that fits, and
    the rest of the input, if any, goes to the recursive call. *)
Lemma ceil_bounds cs n :
  0 < cs -> 0 <= n ->
  0 <= - (- n / cs) /\ n <= - (- n / cs) * cs < n + cs.
Proof.
  intros Hcs Hn. pose proof (chunk_base_bounds cs (- n) Hcs). nia.
Qed.

Lemma chunk_of_nonneg cs data i :
  0 < cs -> 0 <= i ->
  chunk_of cs data i = take (Z.to_nat cs) (drop (Z.to_nat (i * cs)) data).
Proof.
  intros. unfold chunk_of. rewrite slice_nonneg by nia.
  f_equal. lia.
Qed.

Lemma len_chunk_of cs data i :
  0 < cs -> 0 <= i ->
  Py.len (chunk_of cs data i) = Z.min cs (Z.max 0 (Py.len data - i * cs)).
Proof.
  intros. rewrite chunk_of_nonneg by done.
  rewrite len_take by lia. rewrite len_drop by nia. done.
Qed.

Lemma concat_chunk_seq cs data (n : nat) :
  0 < cs ->
  concat (chunk_of cs data <$> seqZ 0 (Z.of_nat n))
  = take (Z.to_nat (Z.of_nat n * cs)) data.
Proof.
  intros Hcs. induction n as [| n IH]; [done |].
  rewrite seqZ_S, fmap_app, concat_app, IH. simpl.
  rewrite app_nil_r, chunk_of_nonneg by lia.
  rewrite take_take_drop. f_equal. lia.
Qed.

Lemma concat_chunks cs data : 0 < cs -> concat (chunks cs data) = data.
Proof.
  intros Hcs. unfold chunks.
  destruct (ceil_bounds cs (Py.len data) Hcs (len_nonneg data)) as [Hn Hb].
  rewrite <- (Z2Nat.id (- (- Py.len data / cs))) by done.
  rewrite concat_chunk_seq by done. rewrite Z2Nat.id by done.
  apply take_ge. unfold Py.len in *. lia.
Qed.

Lemma length_chunks cs data :
  0 < cs -> Z.of_nat (length (chunks cs data)) = - (- Py.len data / cs).
Proof.
  intros Hcs. unfold chunks. rewrite length_fmap, length_seqZ.
  pose proof (ceil_bounds cs (Py.len data) Hcs (len_nonneg data)). lia.
Qed.

Lemma chunks_nil cs : chunks cs [] = [].
Proof. reflexivity. Qed.

(** The aligned loop stores the chunks at consecutive indices and
    advances the cursor by their total length. *)
Lemma write_loop_run cs data idxs chunk_index cursor s :
  0 < cs -> Forall (Z.le 0) idxs ->
  write_loop cs data idxs chunk_index cursor s =
  Ok (cursor + Py.len (concat (chunk_of cs data <$> idxs)),
      map_seqZ chunk_index (chunk_of cs data <$> idxs) ∪ s).
Proof.
  intros Hcs Hpos. revert chunk_index cursor s.
  induction Hpos as [| i idxs Hi Hpos IH]; intros chunk_index cursor s.
  - simpl. unfold Fdb.ret. by rewrite Z.add_0_r, (left_id_L ∅ (∪)).
  - cbn [write_loop]. fold (chunk_of cs data i).
    unfold Fdb.bind, Fdb.assert, Fdb.set.
    pose proof (len_chunk_of cs data i Hcs Hi) as Hlen.
    destruct (Z.leb_spec (Py.len (chunk_of cs data i)) cs); [| lia].
    unfold Fdb.ret. rewrite IH.
    rewrite fmap_cons, concat_cons, len_app, map_seqZ_cons.
    f_equal. f_equal; [lia |].
    rewrite <- insert_union_l.
    rewrite insert_union_r by apply map_seqZ_cons_disjoint.
    done.
Qed.

Lemma write_rec_unaligned d cs cursor data s old :
  0 < cs -> cursor / cs * cs <> cursor -> s !! (cursor / cs) = Some old ->
  _write_rec (S d) cs cursor data s =
  let start_cursor := cursor / cs * cs in
  let new_chunk :=
    take (Z.to_nat (cursor - start_cursor)) old
    ++ take (Z.to_nat (start_cursor + cs - cursor)) data in
  let s' := <[cursor / cs := new_chunk]> s in
  let buf := drop (Z.to_nat (start_cursor + cs - cursor)) data in
  let cursor' :=
    if Py.len new_chunk =? cs then start_cursor + cs
    else start_cursor + Py.len new_chunk in
  if Py.len buf =? 0 then Ok (cursor', s')
  else _write_rec d cs cursor' buf s'.
Proof.
  intros Hcs Hne Hold. pose proof (chunk_base_bounds cs cursor Hcs).
  cbn [_write_rec]. unfold Fdb.bind, Fdb.lift, Py.ceil_div, Py.div, Fdb.get.
  destruct (Z.eqb_spec cs 0); [lia |].
  destruct (Z.eqb_spec (cursor / cs * cs) cursor); [done |].
  cbn [negb]. rewrite Hold. unfold Fdb.set, Py.buffer.
  destruct (Z.ltb_spec (cursor / cs * cs + cs - cursor) 0); [lia |].
  rewrite !slice_0 by lia. by destruct (Py.len (drop _ data) =? 0).
Qed.

Lemma write_rec_missing d cs cursor data s :
  cs <> 0 -> cursor / cs * cs <> cursor -> s !! (cursor / cs) = None ->
  _write_rec (S d) cs cursor data s = Raise AssertionError.
Proof.
  intros Hcs Hne Hold.
  cbn [_write_rec]. unfold Fdb.bind, Fdb.lift, Py.ceil_div, Py.div, Fdb.get.
  destruct (Z.eqb_spec cs 0); [lia |].
  destruct (Z.eqb_spec (cursor / cs * cs) cursor); [done |].
  cbn [negb]. by rewrite Hold.
Qed.

Lemma write_rec_aligned d cs cursor data s :
  cs <> 0 -> cursor / cs * cs = cursor ->
  _write_rec (S d) cs cursor data s =
  write_loop cs data (Py.range (- (- Py.len data / cs))) (cursor / cs) cursor s.
Proof.
  intros Hcs He.
  cbn [_write_rec]. unfold Fdb.bind, Fdb.lift, Py.ceil_div, Py.div.
  destruct (Z.eqb_spec cs 0); [lia |].
  destruct (Z.eqb_spec (cursor / cs * cs) cursor); done.
Qed.

Lemma div_chunk cs j c : 0 < cs -> j * cs <= c < j * cs + cs -> c / cs = j.
Proof. intros. symmetry. apply (Z.div_unique_pos c cs j (c - j * cs)); lia. Qed.

(** A write at an aligned cursor stores the chunks of the data from the
    cursor's chunk index on. *)
Lemma write_aligned_run d cs cursor data s :
  0 < cs -> cursor / cs * cs = cursor ->
  _write_rec (S d) cs cursor data s =
  Ok (cursor + Py.len data, map_seqZ (cursor / cs) (chunks cs data) ∪ s).
Proof.
  intros Hcs He. rewrite write_rec_aligned by (done || lia).
  unfold Py.range. rewrite write_loop_run; [| done |].
  - fold (chunks cs data). by rewrite concat_chunks.
  - apply Forall_seqZ. lia.
Qed.

(** A write at an unaligned cursor into a chunk that reaches the
    cursor. *)
Lemma write_reaching_run d cs cursor data s old :
  0 < cs -> cursor / cs * cs <> cursor -> s !! (cursor / cs) = Some old ->
  cursor - cursor / cs * cs <= Py.len old ->
  _write_rec (S (S d)) cs cursor data s =
  Ok (cursor + Py.len data,
      map_seqZ (cursor / cs + 1)
        (chunks cs (drop (Z.to_nat (cursor / cs * cs + cs - cursor)) data))
      ∪ <[cursor / cs :=
            take (Z.to_nat (cursor - cursor / cs * cs)) old
            ++ take (Z.to_nat (cursor / cs * cs + cs - cursor)) data]> s).
Proof.
  intros Hcs Hne Hold Hreach. pose proof (chunk_base_bounds cs cursor Hcs).
  rewrite (write_rec_unaligned _ _ _ _ _ old) by done. cbv zeta.
  set (j := cursor / cs) in *.
  set (new_chunk := take _ old ++ take _ data).
  assert (Py.len new_chunk
          = cursor - j * cs + Z.min (j * cs + cs - cursor) (Py.len data)) as Hnew.
  { unfold new_chunk. rewrite len_app, !len_take by lia. lia. }
  pose proof (len_nonneg data).
  destruct (Z.eqb_spec (Py.len (drop (Z.to_nat (j * cs + cs - cursor)) data)) 0)
    as [Hbuf | Hbuf].
  - rewrite (len_nil_inv _ Hbuf), chunks_nil. simpl.
    rewrite (left_id_L ∅ (∪)). rewrite len_drop in Hbuf by lia.
    f_equal. f_equal.
    destruct (Z.eqb_spec (Py.len new_chunk) cs); lia.
  - rewrite len_drop in Hbuf by lia.
    destruct (Z.eqb_spec (Py.len new_chunk) cs); [| lia].
    assert ((j * cs + cs) / cs = j + 1) as Hj by (apply div_chunk; lia).
    rewrite write_aligned_run by (rewrite ?Hj; lia).
    rewrite Hj, len_drop by lia. f_equal. f_equal. lia.
Qed.

(** A write at an unaligned cursor beyond the end of a short chunk: the
    data is appended to the chunk. *)
Lemma write_short_run d cs cursor data s old :
  0 < cs -> cursor / cs * cs <> cursor -> s !! (cursor / cs) = Some old ->
  Py.len old < cursor - cursor / cs * cs ->
  _write_rec (S (S (S d))) cs cursor data s =
  Ok (cursor / cs * cs + Py.len old + Py.len data,
      map_seqZ (cursor / cs + 1)
        (chunks cs (drop (Z.to_nat (cs - Py.len old)) data))
      ∪ <[cursor / cs := old ++ take (Z.to_nat (cs - Py.len old)) data]> s).
Proof.
  intros Hcs Hne Hold Hshort. pose proof (chunk_base_bounds cs cursor Hcs).
  rewrite (write_rec_unaligned _ _ _ _ _ old) by done. cbv zeta.
  set (j := cursor / cs) in *.
  pose proof (len_nonneg data). pose proof (len_nonneg old).
  rewrite (take_ge old) by (unfold Py.len in *; lia).
  set (new_chunk := old ++ take _ data).
  assert (Py.len new_chunk
          = Py.len old + Z.min (j * cs + cs - cursor) (Py.len data)) as Hnew.
  { unfold new_chunk. rewrite len_app, len_take by lia. lia. }
  destruct (Z.eqb_spec (Py.len new_chunk) cs); [lia |].
  destruct (Z.eqb_spec (Py.len (drop (Z.to_nat (j * cs + cs - cursor)) data)) 0)
    as [Hbuf | Hbuf]; rewrite len_drop in Hbuf by lia.
  - rewrite (drop_ge data (Z.to_nat (cs - Py.len old)))
      by (unfold Py.len in *; lia).
    rewrite chunks_nil. simpl. rewrite (left_id_L ∅ (∪)).
    rewrite Hnew. unfold new_chunk.
    rewrite !(take_ge data) by (unfold Py.len in *; lia).
    f_equal. f_equal. lia.
  - assert ((j * cs + Py.len new_chunk) / cs = j) as Hj by (apply div_chunk; lia).
    rewrite (write_reaching_run _ _ _ _ _ new_chunk);
      rewrite ?Hj; [| done | lia | apply lookup_insert_eq | lia].
    rewrite len_drop by lia. rewrite insert_insert_eq.
    rewrite drop_drop.
    replace (j * cs + Py.len new_chunk - j * cs) with (Py.len new_chunk) by lia.
    rewrite (take_ge new_chunk) by (unfold Py.len; lia).
    rewrite !Hnew. unfold new_chunk.
    rewrite <- (assoc_L (++)), take_take_drop.
    replace (Z.to_nat (j * cs + cs - cursor) +
             Z.to_nat (j * cs + cs -
                       (j * cs + (Py.len old +
                                  (j * cs + cs - cursor) `min` Py.len data))))%nat
      with (Z.to_nat (cs - Py.len old)) by lia.
    f_equal. f_equal. lia.
Qed.

(** [_write] at an unaligned cursor whose chunk is missing. *)
Lemma write_missing cs cursor data s :
  cs <> 0 -> cursor / cs * cs <> cursor -> s !! (cursor / cs) = None ->
  _write cs cursor data s = Raise AssertionError.
Proof. intros. unfold _write, recursion_limit. by apply write_rec_missing. Qed.

(** [_write] at an aligned cursor. *)
Lemma write_aligned cs cursor data s :
  0 < cs -> cursor / cs * cs = cursor ->
  _write cs cursor data s =
  Ok (cursor + Py.len data, map_seqZ (cursor / cs) (chunks cs data) ∪ s).
Proof. intros. by apply write_aligned_run. Qed.

(** [_write] at an unaligned cursor whose chunk is present: with [m] the
    number of bytes the chunk holds before the cursor, the chunk becomes
    those [m] bytes followed by the first [chunk_size - m] bytes of the
    data, the rest of the data fills the following chunks, and the cursor
    ends [len(data)] after those [m] bytes. *)
Lemma write_unaligned cs cursor data s old :
  0 < cs -> cursor / cs * cs <> cursor -> s !! (cursor / cs) = Some old ->
  let m := Z.min (cursor - cursor / cs * cs) (Py.len old) in
  _write cs cursor data s =
  Ok (cursor / cs * cs + m + Py.len data,
      map_seqZ (cursor / cs + 1) (chunks cs (drop (Z.to_nat (cs - m)) data))
      ∪ <[cursor / cs :=
            take (Z.to_nat m) old ++ take (Z.to_nat (cs - m)) data]> s).
Proof.
  intros Hcs Hne Hold m. unfold _write, recursion_limit.
  change 1000%nat with (S (S (S 997))).
  pose proof (len_nonneg old).
  destruct (Z_le_gt_dec (cursor - cursor / cs * cs) (Py.len old)).
  - rewrite (write_reaching_run _ _ _ _ _ old) by done.
    replace m with (cursor - cursor / cs * cs) by lia.
    f_equal. f_equal; [lia |]. f_equal; [f_equal; f_equal; f_equal; lia |].
    f_equal. f_equal. f_equal. lia.
  - rewrite (write_short_run _ _ _ _ _ old) by (done || lia).
    replace m with (Py.len old) by lia.
    rewrite (take_ge old) by (unfold Py.len; lia). done.
Qed.

End Writer.

(** C8.  Missing chunk during merge: a write at a cursor that is not
    chunk-aligned, when no chunk is stored at the cursor's chunk index,
    raises [AssertionError] ("Do not support missing chunk yet") whatever
    the data, and neither the handle nor the store changes. *)
Theorem missing_chunk_during_merge (self : BlobIO) (data : bytes) (db : store) :
  0 < _chunk_size self ->
  _closed self = false ->
  _cursor self / _chunk_size self * _chunk_size self <> _cursor self ->
  db !! (_cursor self / _chunk_size self) = None ->
  _write (_chunk_size self) (_cursor self) data db = Raise AssertionError /\
  write self data db = Raise AssertionError /\
  exec (OpWrite data) (self, db) = (self, db).
Proof.
  intros Hcs Hopen Hne Hmiss.
  assert (_write (_chunk_size self) (_cursor self) data db = Raise AssertionError) as Hw.
  { unfold _write, recursion_limit. apply write_rec_missing; [lia | done | done]. }
  split; [done |].
  unfold exec. cbn [fst snd]. unfold write, Fdb.transactional.
  by rewrite Hopen, Hw.
Qed.

Lemma missing_chunk_during_merge_witness :
  (0 < 4 /\ _closed (set_cursor (init 4) 5) = false /\
   5 / 4 * 4 <> 5 /\ (<[0 := b_abcd]> ∅ : store) !! (5 / 4) = None) /\
  write (set_cursor (init 4) 5) b_X (<[0 := b_abcd]> ∅) = Raise AssertionError.
Proof.
  assert (0 < 4 /\ _closed (set_cursor (init 4) 5) = false /\
          5 / 4 * 4 <> 5 /\ (<[0 := b_abcd]> ∅ : store) !! (5 / 4) = None)
    as Hyp by (repeat split; vm_compute; congruence).
  split; [exact Hyp |].
  destruct Hyp as (H1 & H2 & H3 & H4).
  exact (proj1 (proj2 (missing_chunk_during_merge
                         (set_cursor (init 4) 5) b_X (<[0 := b_abcd]> ∅)
                         H1 H2 H3 H4))).
Defined.

(** C3 (as the code has it).  A write of the empty string at a
    chunk-aligned cursor returns the cursor and the store unchanged.  At a
    cursor that is not aligned it raises [AssertionError] when the chunk of
    the cursor is missing; when that chunk is present it stores the first
    [cursor - start_cursor] bytes of the chunk in its place and returns
    [start_cursor] plus the length of what it stored: cursor and store are
    unchanged exactly when the chunk ends at the cursor. *)
Theorem zero_length_write (cs cursor : Z) (s : store) :
  0 < cs ->
  (cursor / cs * cs = cursor -> _write cs cursor [] s = Ok (cursor, s)) /\
  (cursor / cs * cs <> cursor -> s !! (cursor / cs) = None ->
     _write cs cursor [] s = Raise AssertionError) /\
  (forall old,
     cursor / cs * cs <> cursor -> s !! (cursor / cs) = Some old ->
     _write cs cursor [] s =
     Ok (cursor / cs * cs + Z.min (cursor - cursor / cs * cs) (Py.len old),
         <[cursor / cs := take (Z.to_nat (cursor - cursor / cs * cs)) old]> s) /\
     (Py.len old = cursor - cursor / cs * cs ->
        _write cs cursor [] s = Ok (cursor, s))).
Proof.
  intros Hcs. split; [| split].
  - intros He. rewrite write_aligned by done. rewrite chunks_nil.
    cbn [map_seqZ]. rewrite (left_id_L ∅ (∪)).
    change (Py.len []) with 0. by rewrite Z.add_0_r.
  - intros Hne Hmiss. unfold _write, recursion_limit.
    apply write_rec_missing; [lia | done | done].
  - intros old Hne Hold. pose proof (chunk_base_bounds cs cursor Hcs).
    pose proof (len_nonneg old).
    assert (_write cs cursor [] s =
            Ok (cursor / cs * cs + Z.min (cursor - cursor / cs * cs) (Py.len old),
                <[cursor / cs := take (Z.to_nat (cursor - cursor / cs * cs)) old]> s))
      as Hrun.
    { rewrite (write_unaligned _ _ _ _ old) by done. cbv zeta.
      rewrite drop_nil, take_nil, chunks_nil, app_nil_r.
      cbn [map_seqZ]. rewrite (left_id_L ∅ (∪)).
      change (Py.len []) with 0. rewrite Z.add_0_r. f_equal. f_equal.
      f_equal. destruct (Z_le_gt_dec (cursor - cursor / cs * cs) (Py.len old)).
      - by rewrite Z.min_l by lia.
      - rewrite Z.min_r by lia. rewrite !take_ge; [done | |]; unfold Py.len in *; lia. }
    split; [exact Hrun |].
    intros Hend. rewrite Hrun. rewrite take_ge by (unfold Py.len in *; lia).
    rewrite insert_id by done. f_equal. f_equal. lia.
Qed.

Lemma zero_length_write_witness :
  0 < 4 /\
  _write 4 4 [] st_abcdefg = Ok (4, st_abcdefg) /\
  _write 4 9 [] st_abcdefg = Raise AssertionError /\
  _write 4 7 [] st_abcdefg = Ok (7, st_abcdefg) /\
  _write 4 1 [] st_abcdefg = Ok (1, <[0 := [x61]]> st_abcdefg).
Proof.
  assert (0 < 4) as Hcs by lia. split; [exact Hcs |].
  split; [| split; [| split]].
  - apply (proj1 (zero_length_write 4 4 st_abcdefg Hcs)). reflexivity.
  - apply (proj1 (proj2 (zero_length_write 4 9 st_abcdefg Hcs)));
      vm_compute; congruence.
  - apply (proj2 (proj2 (zero_length_write 4 7 st_abcdefg Hcs)) b_efg);
      vm_compute; congruence.
  - apply (proj2 (proj2 (zero_length_write 4 1 st_abcdefg Hcs)) b_abcd);
      vm_compute; congruence.
Defined.

(** C3 as stated fails: at cursor 1 of a blob whose first chunk is "abcd",
    the empty write cuts that chunk down to "a". *)
Lemma zero_length_write_not_noop :
  ~ (forall (cs cursor : Z) (s : store),
       0 < cs -> _write cs cursor [] s = Ok (cursor, s)).
Proof.
  intros H. specialize (H 4 1 st_abcdefg ltac:(lia)).
  assert (match _write 4 1 [] st_abcdefg with
          | Ok (_, s') => s' !! 0
          | Raise _ => None
          end = st_abcdefg !! 0) as E by (by rewrite H).
  vm_compute in E. discriminate.
Qed.

(** C4 (as the code has it).  In a write at a cursor that is not
    chunk-aligned, with [m] the number of bytes the existing chunk holds
    before the cursor, the value left in that chunk is those [m] bytes
    followed by the first [chunk_size - m] bytes of the input.  It is
    shorter than [chunk_size] exactly when the input is shorter than
    [chunk_size - m]; so a short value means that the input is shorter than
    the space after the cursor or that the chunk ended before the cursor.
    The previous length of the chunk plays no other part: bytes of the
    chunk after the cursor are not kept. *)
Theorem boundary_merge_length (cs cursor : Z) (data : bytes) (s : store)
    (old : bytes) :
  0 < cs -> cursor / cs * cs <> cursor -> s !! (cursor / cs) = Some old ->
  let m := Z.min (cursor - cursor / cs * cs) (Py.len old) in
  exists c' s' new,
    _write cs cursor data s = Ok (c', s') /\
    s' !! (cursor / cs) = Some new /\
    new = take (Z.to_nat m) old ++ take (Z.to_nat (cs - m)) data /\
    (Py.len new < cs <-> Py.len data < cs - m) /\
    (Py.len new < cs ->
       Py.len data < cursor / cs * cs + cs - cursor \/
       Py.len old < cursor - cursor / cs * cs).
Proof.
  intros Hcs Hne Hold m. pose proof (chunk_base_bounds cs cursor Hcs).
  pose proof (len_nonneg old). pose proof (len_nonneg data).
  eexists _, _, _. split; [by apply write_unaligned |].
  split.
  { rewrite lookup_union_r by (apply lookup_map_seqZ_None; lia).
    apply lookup_insert_eq. }
  split; [done |].
  fold m. rewrite len_app, !len_take by lia. lia.
Qed.

Lemma boundary_merge_length_witness :
  (0 < 4 /\ 5 / 4 * 4 <> 5 /\ st_abcdefg !! (5 / 4) = Some b_efg) /\
  exists c' s' new,
    _write 4 5 b_X st_abcdefg = Ok (c', s') /\
    s' !! (5 / 4) = Some new /\
    new = take (Z.to_nat (Z.min (5 - 5 / 4 * 4) (Py.len b_efg))) b_efg
          ++ take (Z.to_nat (4 - Z.min (5 - 5 / 4 * 4) (Py.len b_efg))) b_X /\
    (Py.len new < 4 <-> Py.len b_X < 4 - Z.min (5 - 5 / 4 * 4) (Py.len b_efg)) /\
    (Py.len new < 4 ->
       Py.len b_X < 5 / 4 * 4 + 4 - 5 \/ Py.len b_efg < 5 - 5 / 4 * 4).
Proof.
  assert (0 < 4 /\ 5 / 4 * 4 <> 5 /\ st_abcdefg !! (5 / 4) = Some b_efg)
    as Hyp by (repeat split; vm_compute; congruence).
  split; [exact Hyp |]. destruct Hyp as (H1 & H2 & H3).
  exact (boundary_merge_length 4 5 b_X st_abcdefg b_efg H1 H2 H3).
Defined.

(** C4 as stated fails: writing "X" at cursor 1 of the blob "abcdefgh"
    leaves "aX" in chunk 0, which was full and is not the last chunk. *)
Lemma boundary_merge_shortens_full_chunk :
  ~ (forall (cs cursor : Z) (data : bytes) (s : store) (old : bytes)
            (c' : Z) (s' : store) (new : bytes),
       0 < cs -> cursor / cs * cs <> cursor -> s !! (cursor / cs) = Some old ->
       _write cs cursor data s = Ok (c', s') ->
       s' !! (cursor / cs) = Some new ->
       Py.len new < cs ->
       Py.len data < cursor / cs * cs + cs - cursor /\ Py.len old < cs).
Proof.
  intros H.
  assert (_write 4 1 b_X st_abcdefgh = Ok (2, <[0 := [x61; x58]]> st_abcdefgh))
    as E by (vm_compute; reflexivity).
  destruct (H 4 1 b_X st_abcdefgh b_abcd 2 _ [x61; x58]
              ltac:(lia) ltac:(vm_compute; congruence) eq_refl E eq_refl
              ltac:(vm_compute; reflexivity)) as [_ Hc].
  vm_compute in Hc. discriminate.
Qed.

(** ** Well-formed blobs *)

Section Blob.

Implicit Types (s : store) (data : bytes).

Lemma lookup_chunks cs data a k :
  0 < cs ->
  (map_seqZ a (chunks cs data) : store) !! k =
  if decide (a <= k /\ (k - a) * cs < Py.len data)
  then Some (chunk_of cs data (k - a)) else None.
Proof.
  intros Hcs. rewrite (lookup_map_seqZ (M:=gmap Z)).
  destruct (ceil_bounds cs (Py.len data) Hcs (len_nonneg data)) as [Hn Hb].
  unfold chunks. rewrite list_lookup_fmap.
  case_guard as Hak; simpl.
  - destruct (decide ((k - a) * cs < Py.len data)) as [Hlt | Hge].
    + rewrite decide_True by done.
      rewrite lookup_seqZ_lt by nia. simpl. do 2 f_equal. lia.
    + rewrite decide_False by tauto.
      rewrite lookup_seqZ_ge by nia. done.
  - rewrite decide_False by tauto. done.
Qed.

Lemma lookup_store_of cs data k :
  0 < cs ->
  store_of cs data !! k =
  if decide (0 <= k /\ k * cs < Py.len data)
  then Some (chunk_of cs data k) else None.
Proof.
  intros Hcs. unfold store_of. rewrite lookup_chunks by done.
  rewrite Z.sub_0_r. done.
Qed.

Lemma lookup_store_of_Some cs data k :
  0 < cs -> 0 <= k -> k * cs < Py.len data ->
  store_of cs data !! k = Some (chunk_of cs data k).
Proof. intros. rewrite lookup_store_of by done. by rewrite decide_True. Qed.

Lemma store_of_is_Some cs data k :
  0 < cs -> is_Some (store_of cs data !! k) <-> 0 <= k /\ k * cs < Py.len data.
Proof.
  intros. rewrite lookup_store_of by done.
  case_decide.
  - split; [done | by eexists].
  - split; [by intros [? ?] | done].
Qed.

Lemma store_of_nil cs : store_of cs [] = ∅.
Proof. unfold store_of. by rewrite chunks_nil. Qed.

Lemma seqZ_sorted a n : StronglySorted Z.lt (seqZ a n).
Proof.
  destruct (Z_le_gt_dec n 0); [by rewrite seqZ_nil by lia; constructor |].
  rewrite <- (Z2Nat.id n) by lia. generalize (Z.to_nat n) as m. clear.
  intros m. revert a. induction m as [| m IH]; intros a; [constructor |].
  rewrite seqZ_cons by lia. constructor.
  - replace (Z.pred (Z.of_nat (S m))) with (Z.of_nat m) by lia. apply IH.
  - apply Forall_forall. intros k Hk. apply elem_of_seqZ in Hk. lia.
Qed.

(** The keys of a well-formed blob are 0, 1, ..., n-1. *)
Lemma keys_store_of cs data :
  0 < cs -> Fdb.keys (store_of cs data) = seqZ 0 (- (- Py.len data / cs)).
Proof.
  intros Hcs. apply keys_unique; [apply seqZ_sorted |].
  intros k. rewrite elem_of_seqZ, store_of_is_Some by done.
  pose proof (ceil_bounds cs (Py.len data) Hcs (len_nonneg data)). nia.
Qed.

(** The scan of a well-formed blob from chunk [a] on, up to chunk [b]
    when an end is given. *)
Lemma scan_store_of cs data a (hi : option Z) :
  0 < cs -> 0 <= a ->
  filter (fun k => Is_true (Fdb.in_range (Some a) hi k))
         (Fdb.keys (store_of cs data))
  = seqZ a (match hi with
            | Some b => Z.min (b + 1) (- (- Py.len data / cs))
            | None => - (- Py.len data / cs)
            end - a).
Proof.
  intros Hcs Ha. apply scan_unique; [apply seqZ_sorted |].
  intros k. rewrite elem_of_seqZ, store_of_is_Some by done.
  pose proof (ceil_bounds cs (Py.len data) Hcs (len_nonneg data)).
  unfold Fdb.in_range. rewrite andb_true_iff, Z.leb_le.
  destruct hi as [b |]; [rewrite Z.leb_le |]; nia.
Qed.

Lemma pairs_store_of cs data a n :
  0 < cs -> 0 <= a -> a + n <= - (- Py.len data / cs) ->
  Fdb.pairs (store_of cs data) (seqZ a n)
  = (fun k => (k, chunk_of cs data k)) <$> seqZ a n.
Proof.
  intros Hcs Ha Hn.
  pose proof (ceil_bounds cs (Py.len data) Hcs (len_nonneg data)) as Hb.
  destruct (Z_le_gt_dec n 0); [by rewrite seqZ_nil by lia |].
  rewrite <- (Z2Nat.id n) in Hn |- * by lia.
  revert Hn. generalize (Z.to_nat n) as m. clear dependent n.
  intros m. revert a Ha. induction m as [| m IH]; intros a Ha Hn; [done |].
  rewrite seqZ_cons by lia.
  replace (Z.pred (Z.of_nat (S m))) with (Z.of_nat m) by lia.
  rewrite (pairs_cons _ _ (chunk_of cs data a))
    by (apply lookup_store_of_Some; [done | done | nia]).
  rewrite fmap_cons. f_equal. apply IH; lia.
Qed.

(** The size of a well-formed blob is the length of its bytes. *)
Lemma size_store_of cs data :
  0 < cs -> _get_size cs (store_of cs data) = Ok (Py.len data, store_of cs data).
Proof.
  intros Hcs. pose proof (len_nonneg data).
  pose proof (ceil_bounds cs (Py.len data) Hcs (len_nonneg data)) as Hb.
  destruct (decide (Py.len data = 0)) as [Hz | Hnz].
  - rewrite (len_nil_inv _ Hz), store_of_nil. apply get_size_empty.
  - set (n := - (- Py.len data / cs)) in *.
    rewrite (get_size_highest _ _ (n - 1) (chunk_of cs data (n - 1))).
    + rewrite len_chunk_of by nia. f_equal. f_equal. nia.
    + apply lookup_store_of_Some; [done | nia | nia].
    + split; [apply store_of_is_Some; [done | nia] |].
      intros k' Hk'. apply store_of_is_Some in Hk'; [| done]. nia.
Qed.

(** A well-formed blob satisfies the invariants of the data model. *)
Lemma store_of_chunk_invariant cs data :
  0 < cs -> chunk_invariant cs (store_of cs data).
Proof.
  intros Hcs k v Hv.
  assert (is_Some (store_of cs data !! k)) as Hk by (by eexists).
  apply store_of_is_Some in Hk as [Hk0 Hk1]; [| done].
  rewrite lookup_store_of_Some in Hv by done. injection Hv as <-.
  rewrite len_chunk_of by done. split.
  - intros _. lia.
  - intros Hnot. destruct (Z_le_gt_dec ((k + 1) * cs) (Py.len data)); [lia |].
    exfalso. apply Hnot. split; [apply store_of_is_Some; [done | lia] |].
    intros k' Hk'. apply store_of_is_Some in Hk'; [| done]. nia.
Qed.

Lemma store_of_contiguous cs data : 0 < cs -> contiguous (store_of cs data).
Proof.
  intros Hcs k Hk. apply store_of_is_Some in Hk as [Hk0 Hk1]; [| done].
  split; [done |]. intros k' Hk'. apply store_of_is_Some; [done |]. nia.
Qed.

End Blob.

(** ** The reader *)

Section Reader.

Implicit Types (s : store) (data buf : bytes).

Lemma read_chunk_run cs cursor size s :
  cs <> 0 ->
  _read_chunk cs cursor size s =
  Ok (read_loop cs
        (Fdb.pairs s
           (filter (fun k => Is_true
                      (Fdb.in_range (Some (cursor / cs))
                         (match size with
                          | Some n =>
                              if negb (n =? 0) then Some ((cursor + n) / cs)
                              else None
                          | None => None
                          end) k))
              (Fdb.keys s)))
        size cursor [], s).
Proof.
  intros Hcs. unfold _read_chunk, Fdb.bind, Fdb.lift, Py.div.
  destruct (Z.eqb_spec cs 0) as [| _]; [done |].
  destruct size as [sz |]; [| done].
  destruct (negb (sz =? 0)); done.
Qed.

(** The part of chunk [j] of a blob from the cursor on. *)
Lemma slice_chunk cs data j cursor :
  0 < cs -> 0 <= j -> j * cs <= cursor ->
  Py.slice_from (chunk_of cs data j) (cursor - j * cs)
  = take (Z.to_nat ((j + 1) * cs - cursor)) (drop (Z.to_nat cursor) data).
Proof.
  intros Hcs Hj Hle. rewrite slice_from_nonneg by lia.
  rewrite chunk_of_nonneg by done.
  rewrite skipn_firstn_comm, drop_drop. f_equal; [lia |]. f_equal. nia.
Qed.

Lemma take_len_take data (a : nat) :
  take (Z.to_nat (Py.len (take a data))) data = take a data.
Proof.
  unfold Py.len. rewrite Nat2Z.id, length_take.
  destruct (Nat.le_gt_cases a (length data)).
  - by rewrite Nat.min_l.
  - rewrite Nat.min_r by lia. by rewrite !take_ge by lia.
Qed.

(** An unlimited read over chunks [j .. j+cnt-1] of a well-formed blob,
    entered with the cursor inside chunk [j]. *)
Lemma read_loop_all cs data (cnt : nat) j cursor buf :
  0 < cs -> 0 <= j ->
  j + Z.of_nat cnt <= - (- Py.len data / cs) ->
  Z.min (j * cs) (Py.len data) <= cursor ->
  (0 < Z.of_nat cnt -> j * cs <= cursor < (j + 1) * cs) ->
  read_loop cs ((fun k => (k, chunk_of cs data k)) <$> seqZ j (Z.of_nat cnt))
    None cursor buf
  = (buf ++ take (Z.to_nat (Z.min ((j + Z.of_nat cnt) * cs) (Py.len data) - cursor))
              (drop (Z.to_nat cursor) data),
     Z.max cursor (Z.min ((j + Z.of_nat cnt) * cs) (Py.len data))).
Proof.
  intros Hcs. pose proof (len_nonneg data) as HL.
  pose proof (ceil_bounds cs (Py.len data) Hcs HL) as Hb.
  revert j cursor buf.
  induction cnt as [| cnt IH]; intros j cursor buf Hj Hn Hmin Hin.
  - simpl. rewrite Z.add_0_r.
    replace (Z.to_nat (Z.min (j * cs) (Py.len data) - cursor)) with 0%nat by lia.
    rewrite take_0, app_nil_r. f_equal. lia.
  - rewrite seqZ_cons by lia.
    replace (Z.pred (Z.of_nat (S cnt))) with (Z.of_nat cnt) by lia.
    rewrite fmap_cons. cbn [read_loop].
    destruct (Hin ltac:(lia)) as [Hlo Hhi].
    destruct (Z.geb_spec cursor (j * cs)); [| lia].
    rewrite slice_chunk by done. cbn [Py.is_zero].
    set (l := drop (Z.to_nat cursor) data).
    set (a := Z.to_nat ((j + 1) * cs - cursor)).
    assert (Py.len (take a l)
            = Z.min ((j + 1) * cs - cursor) (Z.max 0 (Py.len data - cursor)))
      as Hp.
    { unfold a, l. rewrite len_take, len_drop by lia. done. }
    assert (0 <= cursor) as Hcur by nia.
    rewrite IH; [| lia | lia | nia | nia].
    rewrite <- (assoc_L (++)). f_equal; [| nia].
    f_equal.
    replace (drop (Z.to_nat (cursor + Py.len (take a l))) data)
      with (drop (Z.to_nat (Py.len (take a l))) l)
      by (unfold l; rewrite drop_drop; f_equal; unfold Py.len; lia).
    rewrite <- (take_len_take l a) at 1.
    rewrite take_take_drop. f_equal. nia.
Qed.

(** Reading a well-formed blob with no size limit returns its bytes from
    the cursor on and leaves the cursor at the end of the blob (or where
    it was, beyond the end). *)
Lemma read_all_store_of cs data cursor :
  0 < cs -> 0 <= cursor ->
  _read_chunk cs cursor None (store_of cs data)
  = Ok ((drop (Z.to_nat cursor) data, Z.max cursor (Py.len data)),
        store_of cs data).
Proof.
  intros Hcs Hcur. pose proof (len_nonneg data) as HL.
  pose proof (ceil_bounds cs (Py.len data) Hcs HL) as Hb.
  pose proof (chunk_base_bounds cs cursor Hcs) as Hc.
  assert (0 <= cursor / cs) as Hj by (apply Z.div_pos; lia).
  rewrite read_chunk_run by lia.
  rewrite scan_store_of by done.
  set (n := - (- Py.len data / cs)) in *. set (j := cursor / cs) in *.
  destruct (Z_le_gt_dec n j) as [Hge | Hlt].
  - rewrite seqZ_nil by lia. simpl.
    rewrite drop_ge by (unfold Py.len in *; nia).
    rewrite Z.max_l by nia. done.
  - rewrite pairs_store_of by (done || lia).
    rewrite <- (Z2Nat.id (n - j)) by lia.
    rewrite read_loop_all; rewrite ?Z2Nat.id; try lia.
    cbn [app]. replace (j + (n - j)) with n by lia.
    rewrite Z.min_r by lia.
    rewrite take_ge by (rewrite length_drop; unfold Py.len in *; lia).
    done.
Qed.

End Reader.



Section ReadZero.

Implicit Types (s : store) (buf : bytes).

(** Chunks that start beyond the cursor are skipped. *)
Lemma read_loop_skip cs kvs size cursor buf :
  Forall (fun kv : Z * bytes => cursor < fst kv * cs) kvs ->
  read_loop cs kvs size cursor buf = (buf, cursor).
Proof.
  induction 1 as [| [k v] kvs Hk Hall IH]; [done |].
  cbn [read_loop]. simpl in Hk.
  destruct (Z.geb_spec cursor (k * cs)); [lia | done].
Qed.

Lemma pairs_Forall s (P : Z -> Prop) ks :
  Forall P ks -> Forall (fun kv : Z * bytes => P (fst kv)) (Fdb.pairs s ks).
Proof.
  induction 1 as [| k ks Hk Hall IH]; [constructor |].
  unfold Fdb.pairs. simpl. destruct (s !! k); simpl; [constructor |]; done.
Qed.


End ReadZero.




(** ** Stores that satisfy the data model are the well-formed blobs *)

Section DataModel.

Implicit Types (s : store) (vs : list bytes) (rest v : bytes).

Lemma concat_full_length vs (c : nat) :
  Forall (fun v => length v = c) vs -> length (concat vs) = (length vs * c)%nat.
Proof.
  induction 1 as [| v vs Hv Hall IH]; [done |].
  simpl. rewrite length_app, IH, Hv. lia.
Qed.

Lemma concat_full_drop vs rest (c : nat) :
  Forall (fun v => length v = c) vs ->
  drop (length vs * c) (concat vs ++ rest) = rest.
Proof.
  intros Hall. rewrite <- (concat_full_length vs c Hall).
  apply drop_app_length.
Qed.

Lemma concat_full_lookup vs rest (c : nat) i v :
  Forall (fun v => length v = c) vs -> vs !! i = Some v ->
  take c (drop (i * c) (concat vs ++ rest)) = v.
Proof.
  intros Hall. revert i. induction Hall as [| v0 vs Hv0 Hall IH]; intros i Hi.
  - by rewrite lookup_nil in Hi.
  - simpl. rewrite <- (assoc_L (++)). destruct i as [| i]; simpl in Hi.
    + injection Hi as ->. simpl. by apply take_app_length'.
    + replace (S i * c)%nat with (c + i * c)%nat by lia.
      rewrite drop_app_add' by done. by apply IH.
Qed.

Lemma pairs_present s ks :
  Forall (fun k => is_Some (s !! k)) ks ->
  snd <$> Fdb.pairs s ks = (fun k => default [] (s !! k)) <$> ks.
Proof.
  induction 1 as [| k ks [v Hv] Hall IH]; [done |].
  rewrite (pairs_cons _ _ v) by done. rewrite !fmap_cons, IH.
  simpl. by rewrite Hv.
Qed.

Lemma blob_bytes_store_of cs data :
  0 < cs -> blob_bytes (store_of cs data) = data.
Proof.
  intros Hcs. unfold blob_bytes. rewrite keys_store_of by done.
  rewrite pairs_store_of by (done || lia).
  rewrite <- list_fmap_compose.
  change (concat (chunks cs data) = data). by apply concat_chunks.
Qed.

(** A store in which chunk indices are contiguous from zero and every
    chunk but the highest is full holds its bytes in the standard
    layout. *)
Lemma wf_store_of cs s :
  0 < cs -> chunk_invariant cs s -> contiguous s ->
  s = store_of cs (blob_bytes s).
Proof.
  intros Hcs Hinv Hcont.
  destruct (last (Fdb.keys s)) as [h |] eqn:E.
  2: { apply last_None, keys_nil_empty in E. subst s.
       unfold blob_bytes. rewrite keys_empty. simpl. by rewrite store_of_nil. }
  apply last_Some in E as [l E].
  destruct (keys_snoc_highest _ _ _ E) as [[vh Hvh] Hmax].
  destruct (Hcont h) as [Hh0 Hall]; [by eexists |].
  assert (Fdb.keys s = seqZ 0 (h + 1)) as Hkeys.
  { apply keys_unique; [apply seqZ_sorted |].
    intros k. rewrite elem_of_seqZ. split.
    - intros ?. apply Hall. lia.
    - intros Hk. destruct (Hcont k Hk). specialize (Hmax k Hk). lia. }
  set (f := fun k => default [] (s !! k)).
  assert (Forall (fun v => length v = Z.to_nat cs) (f <$> seqZ 0 h)) as Hfull.
  { apply Forall_fmap, Forall_seqZ. intros k Hk. simpl.
    destruct (Hall k ltac:(lia)) as [v Hv]. unfold f. rewrite Hv. simpl.
    destruct (Hinv k v Hv) as [_ Hnot].
    assert (Py.len v = cs) as Hlen.
    { apply Hnot. intros [_ Hk']. specialize (Hk' h ltac:(by eexists)). lia. }
    unfold Py.len in Hlen. lia. }
  assert (0 < Py.len vh <= cs) as Hlast.
  { apply (Hinv h vh Hvh). split; [by eexists | done]. }
  assert (blob_bytes s = concat (f <$> seqZ 0 h) ++ vh) as HB.
  { unfold blob_bytes. rewrite Hkeys.
    rewrite pairs_present
      by (apply Forall_seqZ; intros k Hk; apply Hall; lia).
    fold f. rewrite seqZ_app by lia. rewrite fmap_app, concat_app.
    rewrite (seqZ_cons (0 + h) 1) by lia.
    rewrite (seqZ_nil (Z.succ (0 + h))) by lia. simpl.
    rewrite Z.add_0_l, app_nil_r. unfold f at 2. by rewrite Hvh. }
  assert (length (f <$> seqZ 0 h) = Z.to_nat h) as Hcount
    by (by rewrite length_fmap, length_seqZ).
  assert (Py.len (blob_bytes s) = h * cs + Py.len vh) as HL.
  { rewrite HB, len_app. unfold Py.len at 1.
    rewrite (concat_full_length _ _ Hfull), Hcount. nia. }
  apply map_eq. intros k. rewrite lookup_store_of by done. case_decide as Hk.
  - destruct Hk as [Hk0 Hk1]. assert (k <= h) as Hkh by nia.
    rewrite chunk_of_nonneg by done. rewrite HB.
    destruct (decide (k = h)) as [-> | Hne].
    + rewrite Hvh. f_equal.
      replace (Z.to_nat (h * cs)) with (length (f <$> seqZ 0 h) * Z.to_nat cs)%nat
        by (rewrite Hcount; nia).
      rewrite concat_full_drop by done.
      rewrite take_ge; [done |]. unfold Py.len in *. lia.
    + destruct (Hall k ltac:(lia)) as [v Hv]. rewrite Hv. f_equal.
      replace (Z.to_nat (k * cs)) with (Z.to_nat k * Z.to_nat cs)%nat by nia.
      symmetry. apply concat_full_lookup; [done |].
      rewrite list_lookup_fmap, lookup_seqZ_lt by lia. simpl.
      unfold f. rewrite Z2Nat.id, ?Z.add_0_l by lia. by rewrite Hv.
  - apply eq_None_not_Some. intros Hsome. apply Hk.
    destruct (Hcont k Hsome) as [Hk0 _]. specialize (Hmax k Hsome).
    split; [done | nia].
Qed.

End DataModel.

(** ** Reads with a size limit *)

Section SizedRead.

Implicit Types (s : store) (data buf : bytes).

(** A read of [sz > 0] bytes over chunks [j .. j+cnt-1] of a well-formed
    blob, entered with the cursor inside chunk [j], when the scanned
    chunks end at the chunk of [cursor + sz] or at the end of the
    blob. *)
Lemma read_loop_sized cs data (cnt : nat) j cursor sz buf :
  0 < cs -> 0 <= j -> 0 < sz ->
  j + Z.of_nat cnt <= - (- Py.len data / cs) ->
  (0 < Z.of_nat cnt -> j * cs <= cursor < (j + 1) * cs) ->
  (Z.of_nat cnt = 0 -> 0 <= cursor /\ Py.len data <= cursor) ->
  (j + Z.of_nat cnt = - (- Py.len data / cs)
   \/ cursor + sz < (j + Z.of_nat cnt) * cs) ->
  (0 < Z.of_nat cnt -> (j + Z.of_nat cnt - 1) * cs <= cursor + sz) ->
  read_loop cs ((fun k => (k, chunk_of cs data k)) <$> seqZ j (Z.of_nat cnt))
    (Some sz) cursor buf
  = (buf ++ take (Z.to_nat sz) (drop (Z.to_nat cursor) data),
     cursor + Py.len (take (Z.to_nat sz) (drop (Z.to_nat cursor) data))).
Proof.
  intros Hcs. pose proof (len_nonneg data) as HL.
  pose proof (ceil_bounds cs (Py.len data) Hcs HL) as Hb.
  revert j cursor sz buf.
  induction cnt as [| cnt IH]; intros j cursor sz buf Hj Hsz Hn Hin Hend Hcov Hover.
  - destruct (Hend eq_refl) as [Hc0 Hc1]. simpl.
    rewrite drop_ge by (unfold Py.len in *; lia).
    rewrite take_nil, app_nil_r. change (Py.len []) with 0.
    by rewrite Z.add_0_r.
  - rewrite seqZ_cons by lia.
    replace (Z.pred (Z.of_nat (S cnt))) with (Z.of_nat cnt) by lia.
    rewrite fmap_cons. cbn [read_loop].
    destruct (Hin ltac:(lia)) as [Hlo Hhi].
    assert (0 <= cursor) as Hcur by nia.
    destruct (Z.geb_spec cursor (j * cs)); [| lia].
    rewrite slice_chunk by done.
    set (l := drop (Z.to_nat cursor) data).
    set (a := Z.to_nat ((j + 1) * cs - cursor)).
    assert (Py.len l = Z.max 0 (Py.len data - cursor)) as Hl
      by (unfold l; by rewrite len_drop by lia).
    assert (Py.len (take a l)
            = Z.min ((j + 1) * cs - cursor) (Z.max 0 (Py.len data - cursor)))
      as Hp.
    { unfold a. rewrite len_take by lia. by rewrite Hl. }
    destruct (Z.eqb_spec sz 0); [lia |]. cbn [negb].
    destruct (Z.ltb_spec sz (Py.len (take a l))) as [Hcut | Hfit].
    + (* the limit falls inside this chunk: it is the last one scanned *)
      cbn [Py.is_zero]. destruct (Z.eqb_spec sz 0); [lia |].
      assert (cnt = 0%nat) as -> by nia.
      simpl. rewrite slice_to_nonneg by lia.
      rewrite take_take. replace (Z.to_nat sz `min` a)%nat with (Z.to_nat sz) by lia.
      rewrite len_take by lia. f_equal. lia.
    + cbn [Py.is_zero].
      assert (take (Z.to_nat sz) l
              = take a l
                ++ take (Z.to_nat (sz - Py.len (take a l)))
                     (drop (Z.to_nat (cursor + Py.len (take a l))) data))
        as Hsplit.
      { replace (drop (Z.to_nat (cursor + Py.len (take a l))) data)
          with (drop (Z.to_nat (Py.len (take a l))) l)
          by (unfold l; rewrite drop_drop; f_equal; unfold Py.len; lia).
        rewrite <- (take_len_take l a) at 1.
        rewrite take_take_drop. f_equal. unfold Py.len in *. lia. }
      destruct (Z.eqb_spec (sz - Py.len (take a l)) 0) as [Hz | Hnz].
      * rewrite Hsplit, Hz. simpl. by rewrite app_nil_r.
      * rewrite IH; [| lia | lia | lia | nia | nia | | nia].
        -- rewrite Hsplit, len_app, (assoc_L (++)). f_equal. lia.
        -- destruct Hcov as [Hcov | Hcov]; [left; lia | right; nia].
Qed.

(** Reading at most [sz > 0] bytes of a well-formed blob returns the
    bytes of the blob from the cursor on, cut to [sz], and advances the
    cursor by what it returns. *)
Lemma read_sized_store_of cs data cursor sz :
  0 < cs -> 0 <= cursor -> 0 < sz ->
  _read_chunk cs cursor (Some sz) (store_of cs data)
  = Ok ((take (Z.to_nat sz) (drop (Z.to_nat cursor) data),
         cursor + Py.len (take (Z.to_nat sz) (drop (Z.to_nat cursor) data))),
        store_of cs data).
Proof.
  intros Hcs Hcur Hsz. pose proof (len_nonneg data) as HL.
  pose proof (ceil_bounds cs (Py.len data) Hcs HL) as Hb.
  pose proof (chunk_base_bounds cs cursor Hcs) as Hc.
  pose proof (chunk_base_bounds cs (cursor + sz) Hcs) as He.
  assert (0 <= cursor / cs) as Hj by (apply Z.div_pos; lia).
  assert (cursor / cs <= (cursor + sz) / cs) as Hje
    by (apply Z.div_le_mono; lia).
  rewrite read_chunk_run by lia.
  destruct (Z.eqb_spec sz 0) as [| _]; [lia |]. cbn [negb].
  rewrite scan_store_of by done.
  set (n := - (- Py.len data / cs)) in *. set (j := cursor / cs) in *.
  set (e := (cursor + sz) / cs) in *.
  destruct (Z_le_gt_dec n j) as [Hge | Hlt].
  - rewrite seqZ_nil by lia. simpl.
    rewrite drop_ge by (unfold Py.len in *; nia).
    rewrite take_nil. change (Py.len []) with 0. by rewrite Z.add_0_r.
  - rewrite pairs_store_of by (done || lia).
    rewrite <- (Z2Nat.id (Z.min (e + 1) n - j)) by lia.
    rewrite read_loop_sized; rewrite ?Z2Nat.id; try lia; try done.
    intros _. nia.
Qed.

End SizedRead.

(** On a blob that satisfies the data model, a read of [size > 0] bytes
    that ends no further than the size of the blob returns the [size]
    bytes of the blob that start at the cursor. *)
Lemma read_data_model (self : BlobIO) (size : Z) (db : store) :
  0 < _chunk_size self -> _closed self = false ->
  chunk_invariant (_chunk_size self) db -> contiguous db ->
  0 <= _cursor self -> 0 < size ->
  (exists l, _get_size (_chunk_size self) db = Ok (l, db)
             /\ _cursor self + size <= l) ->
  read self (Some size) db
  = Ok (take (Z.to_nat size) (drop (Z.to_nat (_cursor self)) (blob_bytes db)),
        set_cursor self (_cursor self + size), db).
Proof.
  intros Hcs Hopen Hinv Hcont Hcur Hsz (l & Hl & Hext).
  pose proof (wf_store_of _ _ Hcs Hinv Hcont) as E.
  remember (blob_bytes db) as B eqn:HB. clear HB.
  subst db. rewrite size_store_of in Hl by done. injection Hl as <-.
  assert (Py.len (take (Z.to_nat size) (drop (Z.to_nat (_cursor self)) B)) = size)
    as Hlen by (rewrite len_take, len_drop by lia; lia).
  unfold read, Fdb.transactional. rewrite Hopen.
  rewrite read_sized_store_of by done. by rewrite Hlen.
Qed.

(** On such a blob every chunk below the chunk of an offset within the
    size of the blob is stored in full. *)
Lemma data_model_full_chunks cs (db : store) l hi :
  0 < cs -> chunk_invariant cs db -> contiguous db ->
  _get_size cs db = Ok (l, db) -> hi <= l ->
  forall k, 0 <= k < hi / cs -> exists v, db !! k = Some v /\ Py.len v = cs.
Proof.
  intros Hcs Hinv Hcont Hl Hext k Hk.
  pose proof (wf_store_of _ _ Hcs Hinv Hcont) as E.
  remember (blob_bytes db) as B eqn:HB. clear HB. subst db.
  rewrite size_store_of in Hl by done. injection Hl as <-.
  pose proof (chunk_base_bounds cs hi Hcs).
  exists (chunk_of cs B k). split.
  - apply lookup_store_of_Some; [done | lia | nia].
  - rewrite len_chunk_of by (done || lia). nia.
Qed.

Section Boundary.

Implicit Types (s : store) (buf rest : bytes).

(** The scan of the chunks [j .. e] when the chunks [j .. e-1] are all
    present. *)
Lemma scan_present s j e :
  j <= e -> (forall k, j <= k < e -> is_Some (s !! k)) ->
  filter (fun k => Is_true (Fdb.in_range (Some j) (Some e) k)) (Fdb.keys s)
  = seqZ j (e - j) ++ match s !! e with Some _ => [e] | None => [] end.
Proof.
  intros Hje Hall. apply scan_unique.
  - apply StronglySorted_app_2; [| apply seqZ_sorted |].
    + intros k1 k2 Hk1 Hk2. apply elem_of_seqZ in Hk1.
      destruct (s !! e); [| by apply elem_of_nil in Hk2].
      apply list_elem_of_singleton in Hk2. lia.
    + destruct (s !! e); repeat constructor.
  - intros k. rewrite elem_of_app, elem_of_seqZ.
    unfold Fdb.in_range. rewrite andb_true_iff, !Z.leb_le. split.
    + intros [Hk | Hk]; [split; [apply Hall |]; lia |].
      destruct (s !! e) eqn:He; [| by apply elem_of_nil in Hk].
      apply list_elem_of_singleton in Hk as ->. split; [by rewrite He | lia].
    + intros [Hk Hr]. destruct (decide (k = e)) as [-> | Hne]; [| left; lia].
      right. destruct Hk as [v ->]. by apply list_elem_of_singleton.
Qed.

Lemma byte_at_chunk cs s j v p :
  0 < cs -> s !! j = Some v -> j * cs <= p < (j + 1) * cs ->
  byte_at cs s p = v !! Z.to_nat (p - j * cs).
Proof.
  intros Hcs Hv Hp. unfold byte_at.
  rewrite (div_chunk cs j p) by lia. rewrite Hv. simpl.
  by rewrite (Z.mod_in_range j) by lia.
Qed.

(** A read that ends on the boundary after the full chunks
    [j .. j+cnt]: it consumes exactly these chunks and stops, whatever
    comes after them in the scan. *)
Lemma read_loop_full cs s (cnt : nat) j cursor sz buf (rest : list Z) :
  0 < cs ->
  (forall k, j <= k <= j + Z.of_nat cnt ->
     exists v, s !! k = Some v /\ Py.len v = cs) ->
  j * cs <= cursor < (j + 1) * cs ->
  cursor + sz = (j + Z.of_nat cnt + 1) * cs ->
  exists out,
    read_loop cs (Fdb.pairs s (seqZ j (Z.of_nat (S cnt)) ++ rest))
      (Some sz) cursor buf
    = (buf ++ out, cursor + sz) /\
    Py.len out = sz /\
    forall i, 0 <= i < sz -> out !! Z.to_nat i = byte_at cs s (cursor + i).
Proof.
  intros Hcs. revert j cursor sz buf.
  induction cnt as [| cnt IH]; intros j cursor sz buf Hfull Hin Hend.
  all: destruct (Hfull j ltac:(lia)) as (v & Hv & Hlen).
  all: rewrite seqZ_cons by lia; cbn [app].
  all: rewrite (pairs_cons _ _ v) by done; cbn [read_loop].
  all: destruct (Z.geb_spec cursor (j * cs)); [| lia].
  all: rewrite slice_from_nonneg by lia.
  all: set (piece := drop (Z.to_nat (cursor - j * cs)) v).
  all: assert (Py.len piece = (j + 1) * cs - cursor) as Hp
         by (unfold piece; rewrite len_drop by lia; lia).
  all: destruct (Z.eqb_spec sz 0) as [| _]; [nia |]; cbn [negb].
  all: destruct (Z.ltb_spec sz (Py.len piece)); [nia |]; cbn [Py.is_zero].
  all: assert (forall i, 0 <= i < Py.len piece ->
                 piece !! Z.to_nat i = byte_at cs s (cursor + i)) as Hpiece
         by (intros i Hi; rewrite (byte_at_chunk cs s j v) by (done || lia);
             unfold piece; rewrite lookup_drop; f_equal; lia).
  - destruct (Z.eqb_spec (sz - Py.len piece) 0); [| nia].
    exists piece. split; [do 2 f_equal; lia |]. split; [lia |].
    intros i Hi. apply Hpiece. lia.
  - destruct (Z.eqb_spec (sz - Py.len piece) 0); [nia |].
    replace (Z.pred (Z.of_nat (S (S cnt)))) with (Z.of_nat (S cnt)) by lia.
    destruct (IH (Z.succ j) (cursor + Py.len piece) (sz - Py.len piece)
                (buf ++ piece)) as (out & Hrun & Hout & Hbytes).
    { intros k Hk. apply Hfull. lia. }
    { lia. }
    { lia. }
    exists (piece ++ out). rewrite Hrun. split; [| split].
    + rewrite (assoc_L (++)). f_equal. lia.
    + rewrite len_app. lia.
    + intros i Hi. destruct (Z_lt_ge_dec i (Py.len piece)).
      * rewrite lookup_app_l by (unfold Py.len in *; lia). apply Hpiece. lia.
      * rewrite lookup_app_r by (unfold Py.len in *; lia).
        replace (Z.to_nat i - length piece)%nat
          with (Z.to_nat (i - Py.len piece)) by (unfold Py.len; lia).
        rewrite Hbytes by lia. f_equal. lia.
Qed.

End Boundary.



(** ** Reachable blob states *)

Section Reachable.

Implicit Types (s db : store) (data B : bytes) (w : BlobIO * store).

#[local] Arguments write : simpl never.
#[local] Arguments seek : simpl never.
#[local] Arguments _write : simpl never.
#[local] Arguments _get_size : simpl never.

Lemma chunk_of_app_l cs B data k :
  0 < cs -> 0 <= k -> (k + 1) * cs <= Py.len B ->
  chunk_of cs (B ++ data) k = chunk_of cs B k.
Proof.
  intros. rewrite !chunk_of_nonneg by done.
  rewrite drop_app_le by (unfold Py.len in *; nia).
  apply take_app_le. rewrite length_drop. unfold Py.len in *. nia.
Qed.

Lemma chunk_of_app_mid cs B data k :
  0 < cs -> 0 <= k -> k * cs <= Py.len B <= (k + 1) * cs ->
  chunk_of cs (B ++ data) k
  = drop (Z.to_nat (k * cs)) B ++ take (Z.to_nat ((k + 1) * cs - Py.len B)) data.
Proof.
  intros. rewrite chunk_of_nonneg by done.
  rewrite drop_app_le by (unfold Py.len in *; nia).
  rewrite take_app_ge by (rewrite length_drop; unfold Py.len in *; nia).
  f_equal. f_equal. rewrite length_drop. unfold Py.len in *. nia.
Qed.

Lemma chunk_of_app_r cs B data k :
  0 < cs -> 0 <= k -> Py.len B <= k * cs ->
  chunk_of cs (B ++ data) k
  = take (Z.to_nat cs) (drop (Z.to_nat (k * cs - Py.len B)) data).
Proof.
  intros. rewrite chunk_of_nonneg by done.
  rewrite drop_app_ge by (unfold Py.len in *; nia).
  f_equal. f_equal. unfold Py.len in *. nia.
Qed.

Local Ltac opt_union :=
  rewrite ?union_Some_l, ?(left_id_L None (∪)).

(** Writing at the end of a well-formed blob appends. *)
Lemma write_append cs B data :
  0 < cs ->
  _write cs (Py.len B) data (store_of cs B)
  = Ok (Py.len B + Py.len data, store_of cs (B ++ data)).
Proof.
  intros Hcs. pose proof (len_nonneg B) as HB. pose proof (len_nonneg data) as HD.
  pose proof (chunk_base_bounds cs (Py.len B) Hcs) as Hb.
  assert (0 <= Py.len B / cs) as Hj by (apply Z.div_pos; lia).
  set (j := Py.len B / cs) in *.
  destruct (decide (j * cs = Py.len B)) as [Hal | Hne].
  - rewrite write_aligned by done. fold j. f_equal. f_equal.
    apply map_eq. intros k.
    rewrite lookup_union, lookup_chunks, !lookup_store_of by done.
    rewrite len_app.
    destruct (decide (k < j)) as [Hlt | Hge].
    + rewrite (decide_False (P := j <= k /\ _)) by lia.
      destruct (decide (0 <= k)) as [Hk0 | Hk0].
      * rewrite !decide_True by nia. opt_union.
        by rewrite chunk_of_app_l by (done || nia).
      * rewrite !decide_False by lia. by opt_union.
    + rewrite (decide_False (P := 0 <= k /\ k * cs < Py.len B)) by nia.
      destruct (decide ((k - j) * cs < Py.len data)) as [Hin | Hout].
      * rewrite !decide_True by nia. opt_union. f_equal.
        rewrite chunk_of_app_r by (done || nia).
        rewrite chunk_of_nonneg by (done || lia). do 2 f_equal. nia.
      * rewrite !decide_False by nia. by opt_union.
  - assert (store_of cs B !! j = Some (drop (Z.to_nat (j * cs)) B)) as Hold.
    { rewrite lookup_store_of_Some by (done || lia). f_equal.
      rewrite chunk_of_nonneg by done.
      apply take_ge. rewrite length_drop. unfold Py.len in *. nia. }
    set (old := drop (Z.to_nat (j * cs)) B) in *.
    assert (Py.len old = Py.len B - j * cs) as Hlen
      by (unfold old; rewrite len_drop by lia; lia).
    rewrite (write_unaligned _ _ _ _ old) by done. cbv zeta. fold j.
    rewrite Hlen. rewrite Z.min_l by lia.
    rewrite (take_ge old) by (unfold Py.len in *; lia).
    f_equal. f_equal; [lia |].
    apply map_eq. intros k.
    rewrite lookup_union, lookup_chunks, lookup_insert, !lookup_store_of by done.
    rewrite len_app, len_drop by lia.
    destruct (decide (k < j)) as [Hlt | Hge].
    + rewrite (decide_False (P := j + 1 <= k /\ _)) by lia.
      rewrite (decide_False (P := j = k)) by lia.
      destruct (decide (0 <= k)) as [Hk0 | Hk0].
      * rewrite !decide_True by nia. opt_union.
        by rewrite chunk_of_app_l by (done || nia).
      * rewrite !decide_False by lia. by opt_union.
    + destruct (decide (j = k)) as [<- | Hjk].
      * rewrite (decide_False (P := j + 1 <= j /\ _)) by lia.
        rewrite decide_True by nia. opt_union. f_equal.
        rewrite chunk_of_app_mid by (done || lia). fold old.
        do 2 f_equal. lia.
      * rewrite (decide_False (P := 0 <= k /\ k * cs < Py.len B)) by nia.
        destruct (decide (k * cs < Py.len B + Py.len data)) as [Hin | Hout].
        -- rewrite !decide_True by nia. opt_union. f_equal.
           rewrite chunk_of_app_r by (done || nia).
           rewrite chunk_of_nonneg by (done || lia).
           rewrite drop_drop. do 2 f_equal. nia.
        -- rewrite !decide_False by nia. by opt_union.
Qed.

Lemma write_Ok_inv (self self' : BlobIO) data db db' :
  write self data db = Ok (self', db') ->
  _write (_chunk_size self) (_cursor self) data db = Ok (_cursor self', db')
  /\ _chunk_size self' = _chunk_size self.
Proof.
  unfold write, Fdb.transactional. destruct (_closed self); [done |].
  destruct (_write _ _ data db) as [[c s'] | e]; [| done].
  intros [= <- <-]. done.
Qed.

Lemma seek_Ok_inv (self self' : BlobIO) cursor whence db db' :
  seek self cursor whence db = Ok (self', db') ->
  db' = db /\ _chunk_size self' = _chunk_size self.
Proof.
  unfold seek, Fdb.transactional, _seek, Fdb.bind.
  destruct (_closed self); [done |].
  destruct (get_size_total (_chunk_size self) db) as [l ->].
  destruct (whence =? SEEK_SET); [by intros [= <- <-] |].
  destruct (whence =? SEEK_CUR); [by intros [= <- <-] |].
  destruct (whence =? SEEK_END); [by intros [= <- <-] | done].
Qed.

(** What [_write] can return: at an unaligned cursor the chunk must be
    present. *)
Lemma write_Ok_cases cs cursor data db c db' :
  0 < cs -> _write cs cursor data db = Ok (c, db') ->
  (cursor / cs * cs = cursor
   /\ db' = map_seqZ (cursor / cs) (chunks cs data) ∪ db)
  \/ (exists old,
        cursor / cs * cs <> cursor /\ db !! (cursor / cs) = Some old /\
        let m := Z.min (cursor - cursor / cs * cs) (Py.len old) in
        db' = map_seqZ (cursor / cs + 1)
                (chunks cs (drop (Z.to_nat (cs - m)) data))
              ∪ <[cursor / cs :=
                    take (Z.to_nat m) old ++ take (Z.to_nat (cs - m)) data]> db).
Proof.
  intros Hcs Hw.
  destruct (decide (cursor / cs * cs = cursor)) as [Hal | Hne].
  - left. rewrite write_aligned in Hw by done. by injection Hw as <- <-.
  - right. destruct (db !! (cursor / cs)) as [old |] eqn:Hold.
    + exists old. rewrite (write_unaligned _ _ _ _ old) in Hw by done.
      cbv zeta in Hw. by injection Hw as <- <-.
    + rewrite write_missing in Hw by (done || lia). done.
Qed.

Lemma chunks_lookup_len cs data a k v :
  0 < cs -> (map_seqZ a (chunks cs data) : store) !! k = Some v ->
  0 < Py.len v <= cs.
Proof.
  intros Hcs. rewrite lookup_chunks by done. case_decide as Hk; [| done].
  intros [= <-]. rewrite len_chunk_of by (done || lia). lia.
Qed.

(** Whatever the cursor, a write keeps every chunk non-empty and no
    longer than [chunk_size]. *)
Lemma write_lengths cs cursor data db c db' :
  0 < cs ->
  (forall k v, db !! k = Some v -> 0 < Py.len v <= cs) ->
  _write cs cursor data db = Ok (c, db') ->
  forall k v, db' !! k = Some v -> 0 < Py.len v <= cs.
Proof.
  intros Hcs Hdb Hw k v Hv.
  pose proof (chunk_base_bounds cs cursor Hcs) as Hb.
  destruct (write_Ok_cases _ _ _ _ _ _ Hcs Hw)
    as [[_ ->] | (old & Hne & Hold & ->)].
  - apply lookup_union_Some_raw in Hv as [Hv | [_ Hv]].
    + by eapply chunks_lookup_len.
    + by eapply Hdb.
  - apply lookup_union_Some_raw in Hv as [Hv | [_ Hv]].
    + by eapply chunks_lookup_len.
    + rewrite lookup_insert in Hv. case_decide; [| by eapply Hdb].
      injection Hv as <-. specialize (Hdb _ _ Hold).
      pose proof (len_nonneg data).
      rewrite len_app, !len_take by lia. lia.
Qed.

Lemma exec_lengths cs o w :
  0 < cs -> _chunk_size (fst w) = cs ->
  (forall k v, snd w !! k = Some v -> 0 < Py.len v <= cs) ->
  _chunk_size (fst (exec o w)) = cs /\
  (forall k v, snd (exec o w) !! k = Some v -> 0 < Py.len v <= cs).
Proof.
  intros Hcs Hsize Hlen. destruct w as [self db]. simpl in *.
  destruct o as [data | cursor whence]; simpl.
  - destruct (write self data db) as [[self' db'] |] eqn:Hw; [| done].
    apply write_Ok_inv in Hw as [Hw Hs]. simpl. split; [congruence |].
    rewrite Hsize in Hw. by eapply write_lengths.
  - destruct (seek self cursor whence db) as [[self' db'] |] eqn:Hs; [| done].
    apply seek_Ok_inv in Hs as [-> Hs]. simpl. split; [congruence | done].
Qed.

Lemma run_lengths cs ops w :
  0 < cs -> _chunk_size (fst w) = cs ->
  (forall k v, snd w !! k = Some v -> 0 < Py.len v <= cs) ->
  forall k v, snd (run ops w) !! k = Some v -> 0 < Py.len v <= cs.
Proof.
  intros Hcs. revert w. induction ops as [| o ops IH]; intros w Hsize Hlen.
  - done.
  - simpl. destruct (exec_lengths cs o w Hcs Hsize Hlen) as [Hs Hl].
    by apply IH.
Qed.

Lemma exec_wf_state cs o w :
  0 < cs -> wf_state cs w -> (is_write o -> at_end w) ->
  wf_state cs (exec o w) /\ (is_write o -> at_end (exec o w)).
Proof.
  intros Hcs [Hsize [B HB]] Hend. destruct w as [self db]. simpl in *. subst db.
  destruct o as [data | cursor whence]; simpl.
  - specialize (Hend I). unfold at_end in Hend. simpl in Hend.
    rewrite Hsize, size_store_of in Hend by done. injection Hend as Hcur.
    destruct (write self data (store_of cs B)) as [[self' db'] |] eqn:Hw.
    + apply write_Ok_inv in Hw as [Hw Hs]. rewrite Hsize in *.
      rewrite <- Hcur, write_append in Hw by done. injection Hw as Hc <-.
      split; [split; [done | by eexists] |].
      intros _. unfold at_end. simpl. rewrite Hs, size_store_of by done.
      by rewrite len_app, Hc.
    + split; [split; [done | by eexists] |].
      intros _. unfold at_end. simpl. rewrite Hsize, size_store_of by done.
      by rewrite Hcur.
  - destruct (seek self cursor whence (store_of cs B))
      as [[self' db'] |] eqn:Hs.
    + apply seek_Ok_inv in Hs as [-> Hs]. simpl.
      split; [split; [simpl; congruence | by eexists] | done].
    + split; [split; [done | by eexists] | done].
Qed.

Lemma run_wf_state cs ops w :
  0 < cs -> wf_state cs w -> writes_at_end ops w -> wf_state cs (run ops w).
Proof.
  intros Hcs. revert w. induction ops as [| o ops IH]; intros w Hwf Hends.
  - done.
  - simpl in *. destruct Hends as [Hend Hends].
    apply IH; [| done]. by apply exec_wf_state.
Qed.

(** Sequences of writes alone keep the cursor at the end. *)
Lemma writes_only_at_end cs ops w :
  0 < cs -> wf_state cs w -> at_end w -> Forall is_write ops ->
  writes_at_end ops w.
Proof.
  intros Hcs. revert w.
  induction ops as [| o ops IH]; intros w Hwf Hend Hall; [done |].
  apply Forall_cons in Hall as [Ho Hall]. simpl. split; [done |].
  destruct (exec_wf_state cs o w Hcs Hwf (fun _ => Hend)) as [Hwf' Hend'].
  apply IH; auto.
Qed.

Lemma init_wf_state cs : wf_state cs (init cs, ∅) /\ at_end (init cs, ∅).
Proof.
  split.
  - split; [done |]. exists []. by rewrite store_of_nil.
  - unfold at_end. simpl. apply get_size_empty.
Qed.

End Reachable.

(** C2 (as the code has it).  In every state reached from the empty blob
    by writes and seeks through one handle, every stored chunk has length
    in (0, chunk_size].  When every write is issued with the cursor at the
    end of the blob, as in any sequence of writes alone, the chunk indices
    are contiguous from zero, every chunk except the highest-indexed one
    has length exactly [chunk_size] and the highest-indexed one has length
    in (0, chunk_size]. *)
Theorem chunk_lengths_reachable (cs : Z) (ops : list op) :
  0 < cs ->
  (forall k v, snd (run ops (init cs, ∅)) !! k = Some v -> 0 < Py.len v <= cs) /\
  (writes_at_end ops (init cs, ∅) ->
     chunk_invariant cs (snd (run ops (init cs, ∅))) /\
     contiguous (snd (run ops (init cs, ∅)))) /\
  (Forall is_write ops -> writes_at_end ops (init cs, ∅)).
Proof.
  intros Hcs. destruct (init_wf_state cs) as [Hwf Hend].
  split; [| split].
  - apply run_lengths; [done | done |]. intros k v. cbn [snd].
    by rewrite lookup_empty.
  - intros Hends.
    destruct (run_wf_state cs ops _ Hcs Hwf Hends) as [_ [B ->]].
    split; [by apply store_of_chunk_invariant | by apply store_of_contiguous].
  - by apply (writes_only_at_end cs).
Qed.

Lemma chunk_lengths_reachable_witness :
  0 < 4 /\
  writes_at_end [OpWrite b_abcd; OpSeek 2 SEEK_SET; OpSeek 0 SEEK_END; OpWrite b_efg]
    (init 4, ∅) /\
  chunk_invariant 4
    (snd (run [OpWrite b_abcd; OpSeek 2 SEEK_SET; OpSeek 0 SEEK_END; OpWrite b_efg]
            (init 4, ∅))) /\
  Forall is_write [OpWrite b_abcd; OpWrite b_efg] /\
  writes_at_end [OpWrite b_abcd; OpWrite b_efg] (init 4, ∅).
Proof.
  assert (0 < 4) as Hcs by lia.
  assert (writes_at_end
            [OpWrite b_abcd; OpSeek 2 SEEK_SET; OpSeek 0 SEEK_END; OpWrite b_efg]
            (init 4, ∅)) as Hends.
  { repeat split; intros; vm_compute; try reflexivity; try contradiction. }
  assert (Forall is_write [OpWrite b_abcd; OpWrite b_efg]) as Hall
    by (repeat constructor).
  split; [exact Hcs |]. split; [exact Hends |].
  split; [| split; [exact Hall |]].
  - exact (proj1 (proj1 (proj2 (chunk_lengths_reachable 4 _ Hcs)) Hends)).
  - exact (proj2 (proj2 (chunk_lengths_reachable 4 _ Hcs)) Hall).
Defined.

(** C2 as stated fails: with chunks of 4 bytes, writing "abcdefgh",
    seeking back to 0 and writing "X" leaves chunk 0 holding "X" below
    chunk 1. *)
Lemma chunk_invariant_broken_by_overwrite :
  ~ (forall (cs : Z) (ops : list op),
       0 < cs -> chunk_invariant cs (snd (run ops (init cs, ∅)))).
Proof.
  intros H.
  specialize (H 4 [OpWrite b_abcdefgh; OpSeek 0 SEEK_SET; OpWrite b_X] ltac:(lia)).
  destruct (H 0 b_X ltac:(vm_compute; reflexivity)) as [_ Hnot].
  assert (Py.len b_X = 4) as Hlen; [| vm_compute in Hlen; discriminate].
  apply Hnot. intros [_ Hmax].
  specialize (Hmax 1 ltac:(vm_compute; eauto)). lia.
Qed.

(** * Further properties *)

(** ** Reading a blob that satisfies the data model *)

Section ReadBlob.

Implicit Types (db : store) (B : bytes) (self : BlobIO).

Lemma read_None_store_of self B :
  0 < _chunk_size self -> _closed self = false -> 0 <= _cursor self ->
  read self None (store_of (_chunk_size self) B)
  = Ok (drop (Z.to_nat (_cursor self)) B,
        set_cursor self (Z.max (_cursor self) (Py.len B)),
        store_of (_chunk_size self) B).
Proof.
  intros Hcs Hopen Hcur. unfold read, Fdb.transactional. rewrite Hopen.
  by rewrite read_all_store_of by done.
Qed.

Lemma read_Some_store_of self B n :
  0 < _chunk_size self -> _closed self = false -> 0 <= _cursor self -> 0 < n ->
  read self (Some n) (store_of (_chunk_size self) B)
  = Ok (take (Z.to_nat n) (drop (Z.to_nat (_cursor self)) B),
        set_cursor self
          (_cursor self
           + Py.len (take (Z.to_nat n) (drop (Z.to_nat (_cursor self)) B))),
        store_of (_chunk_size self) B).
Proof.
  intros Hcs Hopen Hcur Hn. unfold read, Fdb.transactional. rewrite Hopen.
  by rewrite read_sized_store_of by done.
Qed.

End ReadBlob.

(** X1.  On a blob that satisfies the data model, [read()] from a cursor
    [c >= 0] returns the bytes of the blob from offset [c] on (nothing
    when [c] is at or beyond the end) and leaves the cursor at the end of
    the blob, or where it was when it was beyond the end already; the
    store is unchanged. *)
Theorem read_unlimited_from_cursor (self : BlobIO) (db : store) :
  0 < _chunk_size self -> _closed self = false ->
  chunk_invariant (_chunk_size self) db -> contiguous db ->
  0 <= _cursor self ->
  read self None db
  = Ok (drop (Z.to_nat (_cursor self)) (blob_bytes db),
        set_cursor self (Z.max (_cursor self) (Py.len (blob_bytes db))),
        db).
Proof.
  intros Hcs Hopen Hinv Hcont Hcur.
  pose proof (wf_store_of _ _ Hcs Hinv Hcont) as E.
  remember (blob_bytes db) as B eqn:HB. clear HB. subst db.
  by apply read_None_store_of.
Qed.

Lemma read_unlimited_from_cursor_witness :
  (0 < 4 /\ _closed (set_cursor (init 4) 2) = false /\
   chunk_invariant 4 st_abcdefg /\ contiguous st_abcdefg /\ 0 <= 2) /\
  read (set_cursor (init 4) 2) None st_abcdefg
  = Ok (drop (Z.to_nat 2) (blob_bytes st_abcdefg),
        set_cursor (set_cursor (init 4) 2)
          (Z.max 2 (Py.len (blob_bytes st_abcdefg))),
        st_abcdefg).
Proof.
  assert (st_abcdefg = store_of 4 b_abcdefg) as E by (vm_compute; reflexivity).
  assert (chunk_invariant 4 st_abcdefg) as Hinv
    by (rewrite E; apply store_of_chunk_invariant; lia).
  assert (contiguous st_abcdefg) as Hcont
    by (rewrite E; apply store_of_contiguous; lia).
  split.
  { split; [lia |]. split; [reflexivity |]. split; [exact Hinv |].
    split; [exact Hcont | lia]. }
  exact (read_unlimited_from_cursor (set_cursor (init 4) 2) st_abcdefg
           ltac:(reflexivity) eq_refl Hinv Hcont ltac:(simpl; lia)).
Defined.



(** X3.  Consecutive reads continue where the previous one stopped: on a
    blob that satisfies the data model, [read(n1)] followed by [read(n2)]
    on the same reader returns two pieces whose concatenation is what one
    [read(n1 + n2)] returns, and leaves the same cursor. *)
Theorem read_twice_is_read_once (self : BlobIO) (n1 n2 : Z) (db : store) :
  0 < _chunk_size self -> _closed self = false ->
  chunk_invariant (_chunk_size self) db -> contiguous db ->
  0 <= _cursor self -> 0 < n1 -> 0 < n2 ->
  exists out1 out2 self1 self2,
    read self (Some n1) db = Ok (out1, self1, db) /\
    read self1 (Some n2) db = Ok (out2, self2, db) /\
    read self (Some (n1 + n2)) db = Ok (out1 ++ out2, self2, db).
Proof.
  intros Hcs Hopen Hinv Hcont Hcur Hn1 Hn2.
  pose proof (wf_store_of _ _ Hcs Hinv Hcont) as E.
  remember (blob_bytes db) as B eqn:HB. clear HB. subst db.
  set (l := drop (Z.to_nat (_cursor self)) B).
  set (out1 := take (Z.to_nat n1) l).
  set (self1 := set_cursor self (_cursor self + Py.len out1)).
  pose proof (len_nonneg out1) as Hl1.
  assert (drop (Z.to_nat (_cursor self1)) B = drop (Z.to_nat (Py.len out1)) l)
    as Hdrop.
  { unfold l. rewrite drop_drop. f_equal. simpl. lia. }
  set (out2 := take (Z.to_nat n2) (drop (Z.to_nat (Py.len out1)) l)).
  assert (out1 ++ out2 = take (Z.to_nat (n1 + n2)) l) as Happ.
  { unfold out2, out1.
    rewrite <- (take_len_take l (Z.to_nat n1)) at 1.
    rewrite take_take_drop.
    destruct (Z_le_gt_dec n1 (Py.len l)).
    - f_equal. rewrite len_take by lia. lia.
    - rewrite !take_ge; [done | |]; unfold Py.len in *;
        rewrite ?length_take; lia. }
  exists out1, out2, self1,
    (set_cursor self1 (_cursor self1 + Py.len out2)).
  split; [| split].
  - by apply read_Some_store_of.
  - rewrite (read_Some_store_of self1) by (done || simpl; lia).
    by rewrite Hdrop.
  - rewrite read_Some_store_of by (done || lia). fold l.
    rewrite <- Happ, len_app. do 2 f_equal.
    unfold self1, set_cursor. cbn [_cursor _chunk_size _closed].
    by rewrite Z.add_assoc.
Qed.

Lemma read_twice_is_read_once_witness :
  (0 < 4 /\ _closed (init 4) = false /\
   chunk_invariant 4 st_abcdefg /\ contiguous st_abcdefg /\
   0 <= 0 /\ 0 < 3 /\ 0 < 9) /\
  exists out1 out2 self1 self2,
    read (init 4) (Some 3) st_abcdefg = Ok (out1, self1, st_abcdefg) /\
    read self1 (Some 9) st_abcdefg = Ok (out2, self2, st_abcdefg) /\
    read (init 4) (Some (3 + 9)) st_abcdefg = Ok (out1 ++ out2, self2, st_abcdefg).
Proof.
  assert (st_abcdefg = store_of 4 b_abcdefg) as E by (vm_compute; reflexivity).
  assert (chunk_invariant 4 st_abcdefg) as Hinv
    by (rewrite E; apply store_of_chunk_invariant; lia).
  assert (contiguous st_abcdefg) as Hcont
    by (rewrite E; apply store_of_contiguous; lia).
  split.
  { split; [lia |]. split; [reflexivity |]. split; [exact Hinv |].
    split; [exact Hcont |]. repeat split; lia. }
  exact (read_twice_is_read_once (init 4) 3 9 st_abcdefg
           ltac:(reflexivity) eq_refl Hinv Hcont
           ltac:(simpl; lia) ltac:(lia) ltac:(lia)).
Defined.

(** X4.  Seek, then read: on a blob that satisfies the data model,
    [seek(c)] followed by [read()] returns the bytes of the blob from
    offset [c] on, where a [c] outside the blob counts as the nearer end
    of it, and leaves the cursor at the end of the blob. *)
Theorem seek_then_read (self : BlobIO) (c : Z) (db : store) :
  0 < _chunk_size self -> _closed self = false ->
  chunk_invariant (_chunk_size self) db -> contiguous db ->
  exists self1,
    seek self c SEEK_SET db = Ok (self1, db) /\
    read self1 None db
    = Ok (drop (Z.to_nat (Z.min (Z.max c 0) (Py.len (blob_bytes db))))
            (blob_bytes db),
          set_cursor self (Py.len (blob_bytes db)), db).
Proof.
  intros Hcs Hopen Hinv Hcont.
  pose proof (wf_store_of _ _ Hcs Hinv Hcont) as E.
  remember (blob_bytes db) as B eqn:HB. clear HB. subst db.
  pose proof (len_nonneg B) as HL.
  exists (set_cursor self (Z.min (Z.max c 0) (Py.len B))). split.
  - unfold seek, Fdb.transactional, _seek, Fdb.bind. rewrite Hopen.
    by rewrite size_store_of by done.
  - rewrite (read_None_store_of (set_cursor self _)) by (done || simpl; lia).
    unfold set_cursor. cbn [_cursor _chunk_size _closed].
    by rewrite (Z.max_r _ (Py.len B)) by lia.
Qed.

Lemma seek_then_read_witness :
  (0 < 4 /\ _closed (init 4) = false /\
   chunk_invariant 4 st_abcdefg /\ contiguous st_abcdefg) /\
  exists self1,
    seek (init 4) 2 SEEK_SET st_abcdefg = Ok (self1, st_abcdefg) /\
    read self1 None st_abcdefg
    = Ok ([x63; x64; x65; x66; x67], set_cursor (init 4) 7, st_abcdefg).
Proof.
  assert (st_abcdefg = store_of 4 b_abcdefg) as E by (vm_compute; reflexivity).
  assert (chunk_invariant 4 st_abcdefg) as Hinv
    by (rewrite E; apply store_of_chunk_invariant; lia).
  assert (contiguous st_abcdefg) as Hcont
    by (rewrite E; apply store_of_contiguous; lia).
  split.
  { split; [lia |]. split; [reflexivity |]. split; [exact Hinv | exact Hcont]. }
  exact (seek_then_read (init 4) 2 st_abcdefg ltac:(reflexivity) eq_refl Hinv Hcont).
Defined.

(** ** Writing *)

Section Appending.

Implicit Types (db : store) (B data : bytes) (self : BlobIO).

Lemma write_at_end self B data :
  0 < _chunk_size self -> _closed self = false -> _cursor self = Py.len B ->
  write self data (store_of (_chunk_size self) B)
  = Ok (set_cursor self (Py.len (B ++ data)),
        store_of (_chunk_size self) (B ++ data)).
Proof.
  intros Hcs Hopen Hcur. unfold write, Fdb.transactional.
  rewrite Hopen, Hcur, write_append by done. by rewrite len_app.
Qed.


End Appending.



(** X6.  Seeking to the end makes the next write an append: on a blob
    that satisfies the data model, [seek(0, SEEK_END)] followed by
    [write(data)] on any open handle gives a blob that satisfies the data
    model again and whose bytes are the old bytes followed by [data]; the
    cursor ends at the new end. *)
Theorem seek_end_then_write_appends (self : BlobIO) (data : bytes) (db : store) :
  0 < _chunk_size self -> _closed self = false ->
  chunk_invariant (_chunk_size self) db -> contiguous db ->
  exists self1 self2 db',
    seek self 0 SEEK_END db = Ok (self1, db) /\
    write self1 data db = Ok (self2, db') /\
    blob_bytes db' = blob_bytes db ++ data /\
    chunk_invariant (_chunk_size self) db' /\ contiguous db' /\
    tell self2 = Ok (Py.len (blob_bytes db) + Py.len data).
Proof.
  intros Hcs Hopen Hinv Hcont.
  pose proof (wf_store_of _ _ Hcs Hinv Hcont) as E.
  remember (blob_bytes db) as B eqn:HB. clear HB. subst db.
  pose proof (len_nonneg B) as HL.
  exists (set_cursor self (Py.len B)),
    (set_cursor self (Py.len (B ++ data))),
    (store_of (_chunk_size self) (B ++ data)).
  split; [| split; [| split; [| split; [| split]]]].
  - unfold seek, Fdb.transactional, _seek, Fdb.bind. rewrite Hopen.
    rewrite size_store_of by done. unfold SEEK_END. simpl.
    unfold Fdb.ret. do 3 f_equal. lia.
  - by rewrite (write_at_end (set_cursor self (Py.len B))).
  - by apply blob_bytes_store_of.
  - by apply store_of_chunk_invariant.
  - by apply store_of_contiguous.
  - unfold tell. simpl. by rewrite len_app.
Qed.

Lemma seek_end_then_write_appends_witness :
  (0 < 4 /\ _closed (init 4) = false /\
   chunk_invariant 4 st_abcdefg /\ contiguous st_abcdefg) /\
  exists self1 self2 db',
    seek (init 4) 0 SEEK_END st_abcdefg = Ok (self1, st_abcdefg) /\
    write self1 b_X st_abcdefg = Ok (self2, db') /\
    blob_bytes db' = blob_bytes st_abcdefg ++ b_X /\
    chunk_invariant 4 db' /\ contiguous db' /\
    tell self2 = Ok (Py.len (blob_bytes st_abcdefg) + Py.len b_X).
Proof.
  assert (st_abcdefg = store_of 4 b_abcdefg) as E by (vm_compute; reflexivity).
  assert (chunk_invariant 4 st_abcdefg) as Hinv
    by (rewrite E; apply store_of_chunk_invariant; lia).
  assert (contiguous st_abcdefg) as Hcont
    by (rewrite E; apply store_of_contiguous; lia).
  split.
  { split; [lia |]. split; [reflexivity |]. split; [exact Hinv | exact Hcont]. }
  exact (seek_end_then_write_appends (init 4) b_X st_abcdefg
           ltac:(reflexivity) eq_refl Hinv Hcont).
Defined.

(** X7.  What a write leaves alone: a successful [write] changes no chunk
    below the chunk of the cursor and no chunk that starts at or after the
    cursor it returns, and every byte that was stored before the cursor is
    still stored, unchanged. *)
Theorem write_frame (self self' : BlobIO) (data : bytes) (db db' : store) :
  0 < _chunk_size self ->
  write self data db = Ok (self', db') ->
  (forall k,
     k < _cursor self / _chunk_size self \/ _cursor self' <= k * _chunk_size self ->
     db' !! k = db !! k) /\
  (forall p b,
     p < _cursor self -> byte_at (_chunk_size self) db p = Some b ->
     byte_at (_chunk_size self) db' p = Some b).
Proof.
  intros Hcs Hw. apply write_Ok_inv in Hw as [Hw _].
  set (cs := _chunk_size self) in *. set (cursor := _cursor self) in *.
  pose proof (chunk_base_bounds cs cursor Hcs) as Hb.
  pose proof (len_nonneg data) as HD.
  assert (forall k, k < cursor / cs \/ _cursor self' <= k * cs ->
                    db' !! k = db !! k) as Hframe.
  { intros k Hk.
    destruct (decide (cursor / cs * cs = cursor)) as [Hal | Hne].
    - rewrite write_aligned in Hw by done. injection Hw as Hc <-.
      rewrite lookup_union_r; [done |].
      rewrite lookup_chunks by done. apply decide_False. nia.
    - destruct (db !! (cursor / cs)) as [old |] eqn:Hold.
      2: { by rewrite write_missing in Hw by (done || lia). }
      rewrite (write_unaligned _ _ _ _ old) in Hw by done. cbv zeta in Hw.
      injection Hw as Hc <-. pose proof (len_nonneg old) as HO.
      rewrite lookup_union_r.
      2: { rewrite lookup_chunks by done. apply decide_False.
           rewrite len_drop by lia. nia. }
      destruct (decide (cursor / cs = k)) as [<- | Hjk];
        [| by rewrite lookup_insert_ne].
      rewrite lookup_insert_eq, Hold. f_equal.
      assert (Py.len old = 0 /\ Py.len data = 0) as [HO0 HD0] by lia.
      by rewrite (len_nil_inv _ HO0), (len_nil_inv _ HD0), !take_nil. }
  split; [exact Hframe |].
  intros p b Hp Hbyte. pose proof (chunk_base_bounds cs p Hcs) as Hpb.
  destruct (decide (p / cs < cursor / cs)) as [Hlt | Hge].
  { unfold byte_at in *. by rewrite Hframe by (left; lia). }
  assert (p / cs = cursor / cs) as Hsame by nia.
  destruct (decide (cursor / cs * cs = cursor)) as [Hal | Hne]; [nia |].
  destruct (db !! (cursor / cs)) as [old |] eqn:Hold.
  2: { by rewrite write_missing in Hw by (done || lia). }
  rewrite (write_unaligned _ _ _ _ old) in Hw by done. cbv zeta in Hw.
  injection Hw as Hc <-. pose proof (len_nonneg old) as HO.
  rewrite (byte_at_chunk cs db (cursor / cs) old) in Hbyte by (done || lia).
  apply lookup_lt_Some in Hbyte as Hlt.
  rewrite (byte_at_chunk cs _ (cursor / cs) _)
    by (done || lia
        || (rewrite lookup_union_r
              by (rewrite lookup_chunks by done; apply decide_False; lia);
            apply lookup_insert_eq)).
  rewrite lookup_app_l by (rewrite length_take; unfold Py.len in *; lia).
  rewrite lookup_take_lt by (unfold Py.len in *; lia). done.
Qed.

Lemma write_frame_witness :
  (0 < 4 /\
   write (set_cursor (init 4) 5) b_X st_abcdefghi
   = Ok (set_cursor (init 4) 6, <[1 := [x65; x58]]> st_abcdefghi)) /\
  (<[1 := [x65; x58]]> st_abcdefghi : store) !! 0 = st_abcdefghi !! 0 /\
  (<[1 := [x65; x58]]> st_abcdefghi : store) !! 2 = st_abcdefghi !! 2 /\
  byte_at 4 (<[1 := [x65; x58]]> st_abcdefghi) 4 = Some x65.
Proof.
  assert (0 < 4) as Hcs by lia.
  assert (write (set_cursor (init 4) 5) b_X st_abcdefghi
          = Ok (set_cursor (init 4) 6, <[1 := [x65; x58]]> st_abcdefghi)) as Hw
    by (vm_compute; reflexivity).
  split; [split; [exact Hcs | exact Hw] |].
  destruct (write_frame (set_cursor (init 4) 5) _ b_X st_abcdefghi _ Hcs Hw)
    as [Hframe Hbytes].
  split; [| split].
  - apply Hframe. left. vm_compute. reflexivity.
  - apply Hframe. right. vm_compute. discriminate.
  - apply Hbytes; [vm_compute; reflexivity | vm_compute; reflexivity].
Defined.



(** ** Reading any store *)

Section ReadAny.

Implicit Types (s db : store) (buf : bytes).


(** With keys in increasing order and no chunk longer than the chunk
    size, a read limited to [n > 0] bytes appends at most [n] bytes. *)
Lemma read_loop_bounded cs s ks n cursor buf :
  0 < cs -> StronglySorted Z.lt ks ->
  (forall k v, s !! k = Some v -> Py.len v <= cs) -> 0 < n ->
  Py.len (fst (read_loop cs (Fdb.pairs s ks) (Some n) cursor buf))
  <= Py.len buf + n.
Proof.
  intros Hcs Hsorted Hlen. revert n cursor buf.
  induction Hsorted as [| k ks Hsorted IH Hk]; intros n cursor buf Hn.
  - simpl. lia.
  - destruct (s !! k) as [v |] eqn:Hv.
    2: { unfold Fdb.pairs. simpl. rewrite Hv. simpl. by apply IH. }
    rewrite (pairs_cons _ _ v) by done. cbn [read_loop].
    destruct (Z.geb_spec cursor (k * cs)); [| by apply IH].
    rewrite slice_from_nonneg by lia.
    set (chunk := drop (Z.to_nat (cursor - k * cs)) v).
    assert (Py.len chunk = Z.max 0 (Py.len v - (cursor - k * cs))) as Hc
      by (unfold chunk; by rewrite len_drop by lia).
    specialize (Hlen k v Hv).
    destruct (Z.eqb_spec n 0); [lia |]. cbn [negb].
    destruct (Z.ltb_spec n (Py.len chunk)).
    + cbn [Py.is_zero]. destruct (Z.eqb_spec n 0); [lia |].
      rewrite read_loop_skip.
      * simpl. rewrite slice_to_nonneg, len_app, len_take by lia. lia.
      * apply (pairs_Forall s (fun k' => cursor + n < k' * cs)).
        eapply Forall_impl; [exact Hk |]. simpl. intros k' Hk'. nia.
    + cbn [Py.is_zero]. destruct (Z.eqb_spec (n - Py.len chunk) 0).
      * simpl. rewrite len_app. lia.
      * etrans; [apply IH; lia |]. rewrite len_app. lia.
Qed.

End ReadAny.



(** X10.  A read never returns more than it was asked for: when no stored
    chunk is longer than the chunk size, as in every state that writes and
    seeks can reach, [read(n)] with [n > 0] returns at most [n] bytes,
    also on blobs with short chunks in the middle or with chunks
    missing. *)
Theorem read_at_most_size (self : BlobIO) (n : Z) (db : store) :
  0 < _chunk_size self -> _closed self = false -> 0 < n ->
  (forall k v, db !! k = Some v -> Py.len v <= _chunk_size self) ->
  exists out self',
    read self (Some n) db = Ok (out, self', db) /\ Py.len out <= n.
Proof.
  intros Hcs Hopen Hn Hlen. unfold read, Fdb.transactional. rewrite Hopen.
  rewrite read_chunk_run by lia.
  match goal with
  | |- context [read_loop ?cs (Fdb.pairs db ?ks) (Some n) ?c []] =>
      pose proof (read_loop_bounded cs db ks n c [] Hcs
                    ltac:(apply sorted_lt_filter, keys_sorted) Hlen Hn) as Hb;
      destruct (read_loop cs (Fdb.pairs db ks) (Some n) c []) as [out c']
  end.
  exists out, (set_cursor self c'). split; [done |]. simpl in Hb.
  change (Py.len []) with 0 in Hb. lia.
Qed.

Lemma read_at_most_size_witness :
  (0 < 4 /\ _closed (init 4) = false /\ 0 < 3 /\
   forall k v, (<[0 := b_X]> st_abcdefgh : store) !! k = Some v -> Py.len v <= 4) /\
  exists out self',
    read (init 4) (Some 3) (<[0 := b_X]> st_abcdefgh)
    = Ok (out, self', <[0 := b_X]> st_abcdefgh) /\
    Py.len out <= 3.
Proof.
  assert (forall k v, (<[0 := b_X]> st_abcdefgh : store) !! k = Some v ->
                      Py.len v <= 4) as Hlen.
  { intros k v. destruct (decide (k = 0)) as [-> | H0].
    - rewrite lookup_insert_eq. intros [= <-]. vm_compute. discriminate.
    - rewrite lookup_insert_ne by done. unfold st_abcdefgh.
      destruct (decide (k = 1)) as [-> | H1].
      + rewrite lookup_insert_eq. intros [= <-]. vm_compute. discriminate.
      + rewrite lookup_insert_ne by done.
        destruct (decide (k = 0)) as [-> | H0']; [done |].
        rewrite lookup_insert_ne by done. by rewrite lookup_empty. }
  split; [split; [lia | split; [reflexivity | split; [lia | exact Hlen]]] |].
  exact (read_at_most_size (init 4) 3 (<[0 := b_X]> st_abcdefgh)
           ltac:(reflexivity) eq_refl ltac:(lia) Hlen).
Defined.

(** ** Reading bytes that are stored *)

Section ReadStored.

Implicit Types (s db : store) (buf : bytes).

(** A read that goes beyond the full chunks [j .. j+cnt]: it consumes
    them and goes on with the rest of the scan at the next boundary. *)
Lemma read_loop_through cs s (cnt : nat) j cursor sz buf (rest : list Z) :
  0 < cs ->
  (forall k, j <= k <= j + Z.of_nat cnt ->
     exists v, s !! k = Some v /\ Py.len v = cs) ->
  j * cs <= cursor < (j + 1) * cs ->
  (j + Z.of_nat cnt + 1) * cs < cursor + sz ->
  exists out,
    read_loop cs (Fdb.pairs s (seqZ j (Z.of_nat (S cnt)) ++ rest))
      (Some sz) cursor buf
    = read_loop cs (Fdb.pairs s rest)
        (Some (cursor + sz - (j + Z.of_nat cnt + 1) * cs))
        ((j + Z.of_nat cnt + 1) * cs) (buf ++ out) /\
    Py.len out = (j + Z.of_nat cnt + 1) * cs - cursor /\
    forall i, 0 <= i < Py.len out ->
      out !! Z.to_nat i = byte_at cs s (cursor + i).
Proof.
  intros Hcs. revert j cursor sz buf.
  induction cnt as [| cnt IH]; intros j cursor sz buf Hfull Hin Hend.
  all: destruct (Hfull j ltac:(lia)) as (v & Hv & Hlen).
  all: rewrite seqZ_cons by lia; cbn [app].
  all: rewrite (pairs_cons _ _ v) by done; cbn [read_loop].
  all: destruct (Z.geb_spec cursor (j * cs)); [| lia].
  all: rewrite slice_from_nonneg by lia.
  all: set (piece := drop (Z.to_nat (cursor - j * cs)) v).
  all: assert (Py.len piece = (j + 1) * cs - cursor) as Hp
         by (unfold piece; rewrite len_drop by lia; lia).
  all: destruct (Z.eqb_spec sz 0) as [| _]; [nia |]; cbn [negb].
  all: destruct (Z.ltb_spec sz (Py.len piece)); [nia |]; cbn [Py.is_zero].
  all: destruct (Z.eqb_spec (sz - Py.len piece) 0); [nia |].
  all: assert (forall i, 0 <= i < Py.len piece ->
                 piece !! Z.to_nat i = byte_at cs s (cursor + i)) as Hpiece
         by (intros i Hi; rewrite (byte_at_chunk cs s j v) by (done || lia);
             unfold piece; rewrite lookup_drop; f_equal; lia).
  - rewrite seqZ_nil by lia. cbn [app].
    exists piece. split; [| split; [lia | done]].
    f_equal; [f_equal |]; lia.
  - replace (Z.pred (Z.of_nat (S (S cnt)))) with (Z.of_nat (S cnt)) by lia.
    destruct (IH (Z.succ j) (cursor + Py.len piece) (sz - Py.len piece)
                (buf ++ piece)) as (out & Hrun & Hout & Hbytes).
    { intros k Hk. apply Hfull. lia. }
    { lia. }
    { lia. }
    exists (piece ++ out). rewrite Hrun. split; [| split].
    + rewrite (assoc_L (++)). f_equal; [f_equal |]; lia.
    + rewrite len_app. lia.
    + intros i Hi. rewrite len_app in Hi.
      destruct (Z_lt_ge_dec i (Py.len piece)).
      * rewrite lookup_app_l by (unfold Py.len in *; lia). apply Hpiece. lia.
      * rewrite lookup_app_r by (unfold Py.len in *; lia).
        replace (Z.to_nat i - length piece)%nat
          with (Z.to_nat (i - Py.len piece)) by (unfold Py.len; lia).
        rewrite Hbytes by lia. f_equal. lia.
Qed.

(** A read that ends inside chunk [e], the last one scanned. *)
Lemma read_loop_last cs s e v cursor t buf :
  0 < cs -> s !! e = Some v ->
  e * cs <= cursor -> 0 < t -> cursor + t <= e * cs + Py.len v ->
  cursor + t <= (e + 1) * cs ->
  exists out,
    read_loop cs (Fdb.pairs s [e]) (Some t) cursor buf
    = (buf ++ out, cursor + t) /\
    Py.len out = t /\
    forall i, 0 <= i < t -> out !! Z.to_nat i = byte_at cs s (cursor + i).
Proof.
  intros Hcs Hv Hlo Ht Hhi Hin.
  rewrite (pairs_cons _ _ v) by done. cbn [Fdb.pairs omap read_loop].
  destruct (Z.geb_spec cursor (e * cs)); [| lia].
  rewrite slice_from_nonneg by lia.
  set (piece := drop (Z.to_nat (cursor - e * cs)) v).
  assert (Py.len piece = Py.len v - (cursor - e * cs)) as Hp
    by (unfold piece; rewrite len_drop by lia; lia).
  assert (forall i, 0 <= i < t ->
            take (Z.to_nat t) piece !! Z.to_nat i = byte_at cs s (cursor + i))
    as Hpiece.
  { intros i Hi. rewrite (byte_at_chunk cs s e v) by (done || lia).
    rewrite lookup_take_lt by lia.
    unfold piece. rewrite lookup_drop. f_equal. lia. }
  destruct (Z.eqb_spec t 0) as [| _]; [lia |]. cbn [negb].
  exists (take (Z.to_nat t) piece).
  split; [| split; [rewrite len_take by lia; lia | done]].
  destruct (Z.ltb_spec t (Py.len piece)).
  - cbn [Py.is_zero]. destruct (Z.eqb_spec t 0); [lia |].
    simpl. by rewrite slice_to_nonneg by lia.
  - cbn [Py.is_zero]. destruct (Z.eqb_spec (t - Py.len piece) 0); [| lia].
    rewrite take_ge by (unfold Py.len in *; lia). do 2 f_equal. lia.
Qed.

(** Chunks behind stored bytes: a full chunk is behind every chunk-size
    run of stored bytes, and the chunk of a stored byte reaches it. *)
Lemma stored_byte_chunk cs s p :
  0 < cs -> is_Some (byte_at cs s p) ->
  exists v, s !! (p / cs) = Some v /\ p - p / cs * cs < Py.len v.
Proof.
  intros Hcs [b Hb]. unfold byte_at in Hb.
  destruct (s !! (p / cs)) as [v |]; [| done]. simpl in Hb.
  exists v. split; [done |]. apply lookup_lt_Some in Hb.
  rewrite Zmod_eq in Hb by lia. pose proof (chunk_base_bounds cs p Hcs).
  unfold Py.len. lia.
Qed.

(** The core of exact reads: when every requested byte is stored and no
    chunk is longer than the chunk size, [_read_chunk] returns the
    requested bytes. *)
Lemma read_stored_bytes cs cursor size db :
  0 < cs -> 0 < size ->
  (forall k v, db !! k = Some v -> Py.len v <= cs) ->
  (forall p, cursor <= p < cursor + size -> is_Some (byte_at cs db p)) ->
  exists out,
    _read_chunk cs cursor (Some size) db = Ok ((out, cursor + size), db) /\
    Py.len out = size /\
    forall i, 0 <= i < size -> out !! Z.to_nat i = byte_at cs db (cursor + i).
Proof.
  intros Hcs Hsz Hlen Hstored.
  pose proof (chunk_base_bounds cs cursor Hcs) as Hc.
  pose proof (chunk_base_bounds cs (cursor + size) Hcs) as He.
  set (j := cursor / cs) in *. set (e := (cursor + size) / cs) in *.
  assert (j <= e) as Hje by (apply Z.div_le_mono; lia).
  assert (forall k, j <= k < e -> exists v, db !! k = Some v /\ Py.len v = cs)
    as Hfull.
  { intros k Hk.
    destruct (stored_byte_chunk cs db ((k + 1) * cs - 1) Hcs) as (v & Hv & Hreach).
    { apply Hstored. nia. }
    rewrite (div_chunk cs k) in Hv, Hreach by lia.
    exists v. split; [done |]. specialize (Hlen k v Hv). lia. }
  rewrite read_chunk_run by lia.
  destruct (Z.eqb_spec size 0) as [| _]; [lia |]. cbn [negb].
  fold j e.
  rewrite scan_present
    by (done || (intros k Hk; destruct (Hfull k Hk) as (v & -> & _); by eexists)).
  destruct (decide (e * cs = cursor + size)) as [Hbound | Hinside].
  - (* the read ends on a chunk boundary *)
    assert (j < e) by nia.
    replace (e - j) with (Z.of_nat (S (Z.to_nat (e - j - 1)))) by lia.
    destruct (read_loop_full cs db (Z.to_nat (e - j - 1)) j cursor size []
                (match db !! e with Some _ => [e] | None => [] end) Hcs)
      as (out & Hrun & Hout & Hbytes).
    { intros k Hk. apply Hfull. lia. }
    { lia. }
    { rewrite Z2Nat.id by lia. lia. }
    exists out. by rewrite Hrun.
  - (* the read ends inside chunk [e] *)
    destruct (stored_byte_chunk cs db (cursor + size - 1) Hcs)
      as (v & Hv & Hreach).
    { apply Hstored. lia. }
    rewrite (div_chunk cs e) in Hv, Hreach by lia. rewrite Hv.
    destruct (decide (j = e)) as [Heq | Hne].
    + rewrite Heq, Z.sub_diag, seqZ_nil by lia. cbn [app].
      destruct (read_loop_last cs db e v cursor size [] Hcs Hv)
        as (out & Hrun & Hout & Hbytes); try lia.
      exists out. by rewrite Hrun.
    + replace (e - j) with (Z.of_nat (S (Z.to_nat (e - j - 1)))) by lia.
      destruct (read_loop_through cs db (Z.to_nat (e - j - 1)) j cursor size []
                  [e] Hcs)
        as (out1 & Hrun1 & Hout1 & Hbytes1).
      { intros k Hk. apply Hfull. lia. }
      { lia. }
      { rewrite Z2Nat.id by lia. lia. }
      rewrite Z2Nat.id in Hrun1, Hout1 by lia.
      replace (j + (e - j - 1) + 1) with e in Hrun1, Hout1 by lia.
      destruct (read_loop_last cs db e v (e * cs) (cursor + size - e * cs)
                  ([] ++ out1) Hcs Hv)
        as (out2 & Hrun2 & Hout2 & Hbytes2); try lia.
      exists (out1 ++ out2). rewrite Hrun1, Hrun2. cbn [app].
      split; [do 3 f_equal; lia |]. split; [rewrite len_app; lia |].
      intros i Hi. destruct (Z_lt_ge_dec i (Py.len out1)).
      * rewrite lookup_app_l by (unfold Py.len in *; lia). apply Hbytes1. lia.
      * rewrite lookup_app_r by (unfold Py.len in *; lia).
        replace (Z.to_nat i - length out1)%nat
          with (Z.to_nat (i - Py.len out1)) by (unfold Py.len; lia).
        rewrite Hbytes2 by lia. f_equal. lia.
Qed.

End ReadStored.

(** X11.  Exact reads on any store: when no stored chunk is longer than
    the chunk size and every byte at the offsets [cursor .. cursor+n-1]
    is stored, [read(n)] with [n > 0] returns exactly these [n] bytes, in
    order, and leaves the cursor at [cursor + n], wherever the read ends
    and whatever else the store holds or lacks. *)
Theorem read_returns_stored_bytes (self : BlobIO) (n : Z) (db : store) :
  0 < _chunk_size self -> _closed self = false -> 0 < n ->
  (forall k v, db !! k = Some v -> Py.len v <= _chunk_size self) ->
  (forall p, _cursor self <= p < _cursor self + n ->
     is_Some (byte_at (_chunk_size self) db p)) ->
  exists out,
    read self (Some n) db = Ok (out, set_cursor self (_cursor self + n), db) /\
    Py.len out = n /\
    forall i, 0 <= i < n ->
      out !! Z.to_nat i = byte_at (_chunk_size self) db (_cursor self + i).
Proof.
  intros Hcs Hopen Hn Hlen Hstored.
  destruct (read_stored_bytes _ _ _ _ Hcs Hn Hlen Hstored)
    as (out & Hrun & Hout & Hbytes).
  exists out. unfold read, Fdb.transactional. by rewrite Hopen, Hrun.
Qed.

Lemma read_returns_stored_bytes_witness :
  (0 < 4 /\ _closed (set_cursor (init 4) 4) = false /\ 0 < 3 /\
   (forall k v, (<[0 := b_X]> st_abcdefgh : store) !! k = Some v ->
                Py.len v <= 4) /\
   forall p, 4 <= p < 4 + 3 ->
     is_Some (byte_at 4 (<[0 := b_X]> st_abcdefgh) p)) /\
  exists out,
    read (set_cursor (init 4) 4) (Some 3) (<[0 := b_X]> st_abcdefgh)
    = Ok (out, set_cursor (init 4) 7, <[0 := b_X]> st_abcdefgh) /\
    Py.len out = 3 /\
    forall i, 0 <= i < 3 ->
      out !! Z.to_nat i = byte_at 4 (<[0 := b_X]> st_abcdefgh) (4 + i).
Proof.
  assert (forall k v, (<[0 := b_X]> st_abcdefgh : store) !! k = Some v ->
                      Py.len v <= 4) as Hlen.
  { intros k v. destruct (decide (k = 0)) as [-> | H0].
    - rewrite lookup_insert_eq. intros [= <-]. vm_compute. discriminate.
    - rewrite lookup_insert_ne by done. unfold st_abcdefgh.
      destruct (decide (k = 1)) as [-> | H1].
      + rewrite lookup_insert_eq. intros [= <-]. vm_compute. discriminate.
      + rewrite lookup_insert_ne by done.
        destruct (decide (k = 0)) as [-> | H0']; [done |].
        rewrite lookup_insert_ne by done. by rewrite lookup_empty. }
  assert (forall p, 4 <= p < 4 + 3 ->
            is_Some (byte_at 4 (<[0 := b_X]> st_abcdefgh) p)) as Hstored.
  { intros p Hp.
    assert (p = 4 \/ p = 5 \/ p = 6) as [-> | [-> | ->]] by lia;
      vm_compute; eauto. }
  split; [split; [lia | split; [reflexivity | split; [lia | split; assumption]]] |].
  exact (read_returns_stored_bytes (set_cursor (init 4) 4) 3
           (<[0 := b_X]> st_abcdefgh)
           ltac:(reflexivity) eq_refl ltac:(lia) Hlen Hstored).
Defined.

(** ** Reading back what was written *)

Section ReadBack.

Implicit Types (s db : store) (data old : bytes).

Lemma write_upper_bound cs cursor data db c db' :
  0 < cs ->
  (forall k v, db !! k = Some v -> Py.len v <= cs) ->
  _write cs cursor data db = Ok (c, db') ->
  forall k v, db' !! k = Some v -> Py.len v <= cs.
Proof.
  intros Hcs Hdb Hw k v Hv.
  pose proof (chunk_base_bounds cs cursor Hcs) as Hb.
  destruct (write_Ok_cases _ _ _ _ _ _ Hcs Hw)
    as [[_ ->] | (old & Hne & Hold & ->)].
  - apply lookup_union_Some_raw in Hv as [Hv | [_ Hv]].
    + by eapply chunks_lookup_len.
    + by eapply Hdb.
  - apply lookup_union_Some_raw in Hv as [Hv | [_ Hv]].
    + by eapply chunks_lookup_len.
    + rewrite lookup_insert in Hv. case_decide; [| by eapply Hdb].
      injection Hv as <-. pose proof (len_nonneg old). pose proof (len_nonneg data).
      rewrite len_app, !len_take by lia. lia.
Qed.

(** The bytes of the data are where the write was to put them, when the
    cursor was aligned or its chunk reached it. *)
Lemma written_bytes cs cursor data db c db' :
  0 < cs ->
  cursor / cs * cs = cursor
  \/ (exists old, db !! (cursor / cs) = Some old
                  /\ cursor - cursor / cs * cs <= Py.len old) ->
  _write cs cursor data db = Ok (c, db') ->
  forall i, 0 <= i < Py.len data ->
    byte_at cs db' (cursor + i) = data !! Z.to_nat i.
Proof.
  intros Hcs Hreach Hw i Hi.
  pose proof (chunk_base_bounds cs cursor Hcs) as Hb.
  pose proof (chunk_base_bounds cs (cursor + i) Hcs) as Hp.
  set (j := cursor / cs) in *. set (k := (cursor + i) / cs) in *.
  assert (j <= k) as Hjk by (apply Z.div_le_mono; lia).
  destruct (decide (j * cs = cursor)) as [Hal | Hne].
  - rewrite write_aligned in Hw by done. fold j in Hw. injection Hw as _ <-.
    rewrite (byte_at_chunk cs _ k (chunk_of cs data (k - j))); [| done | | lia].
    + rewrite chunk_of_nonneg by (done || lia).
      rewrite lookup_take_lt by lia. rewrite lookup_drop. f_equal. nia.
    + apply lookup_union_Some_l. rewrite lookup_chunks by done.
      apply decide_True. nia.
  - destruct Hreach as [Hal | (old & Hold & Hreach)]; [done |].
    rewrite (write_unaligned _ _ _ _ old) in Hw by done. cbv zeta in Hw.
    fold j in Hw. rewrite Z.min_l in Hw by lia. injection Hw as _ <-.
    pose proof (len_nonneg old) as HO.
    destruct (decide (k = j)) as [Hkj | Hkj].
    + rewrite Hkj in *.
      rewrite (byte_at_chunk cs _ j
                 (take (Z.to_nat (cursor - j * cs)) old
                  ++ take (Z.to_nat (cs - (cursor - j * cs))) data));
        [| done | | lia].
      * rewrite lookup_app_r by (rewrite length_take; unfold Py.len in *; lia).
        rewrite length_take.
        rewrite lookup_take_lt by (unfold Py.len in *; lia).
        f_equal. unfold Py.len in *. lia.
      * rewrite lookup_union_r
          by (rewrite lookup_chunks by done; apply decide_False; lia).
        apply lookup_insert_eq.
    + rewrite (byte_at_chunk cs _ k
                 (chunk_of cs (drop (Z.to_nat (cs - (cursor - j * cs))) data)
                    (k - (j + 1)))); [| done | | lia].
      * rewrite chunk_of_nonneg by (done || lia).
        rewrite lookup_take_lt by lia. rewrite !lookup_drop. f_equal. nia.
      * apply lookup_union_Some_l. rewrite lookup_chunks by done.
        apply decide_True. rewrite len_drop by lia. nia.
Qed.

End ReadBack.

(** X12.  Reading back what was written, at any offset: after a write of
    non-empty data at a cursor that is chunk-aligned or lies within its
    stored chunk, a read of [len(data)] bytes from that cursor returns
    exactly the data, also in the middle of a blob and whatever the
    chunks around it hold, as long as no chunk was longer than the chunk
    size. *)
Theorem read_your_write (self : BlobIO) (data : bytes) (db : store) :
  0 < _chunk_size self -> _closed self = false -> data <> [] ->
  (forall k v, db !! k = Some v -> Py.len v <= _chunk_size self) ->
  _cursor self / _chunk_size self * _chunk_size self = _cursor self
  \/ (exists old,
        db !! (_cursor self / _chunk_size self) = Some old /\
        _cursor self - _cursor self / _chunk_size self * _chunk_size self
        <= Py.len old) ->
  exists self' db' r,
    write self data db = Ok (self', db') /\
    read self (Some (Py.len data)) db' = Ok (data, r, db').
Proof.
  intros Hcs Hopen Hdata Hlen Hreach.
  assert (0 < Py.len data) as Hpos.
  { pose proof (len_nonneg data).
    destruct (decide (Py.len data = 0)) as [Hz | Hz]; [| lia].
    by apply len_nil_inv in Hz. }
  unfold write, read, Fdb.transactional. rewrite Hopen.
  destruct (_write (_chunk_size self) (_cursor self) data db)
    as [[c db'] | e] eqn:Hw.
  2: { exfalso. destruct (decide (_cursor self / _chunk_size self
                                   * _chunk_size self = _cursor self)) as [Hal | Hne].
       - by rewrite write_aligned in Hw by done.
       - destruct Hreach as [Hal | (old & Hold & _)]; [done |].
         by rewrite (write_unaligned _ _ _ _ old) in Hw by done. }
  destruct (read_stored_bytes (_chunk_size self) (_cursor self) (Py.len data) db'
              Hcs Hpos) as (out & Hrun & Hout & Hbytes).
  { by eapply write_upper_bound. }
  { intros p Hp.
    replace p with (_cursor self + (p - _cursor self)) by lia.
    rewrite (written_bytes _ _ _ _ _ _ Hcs Hreach Hw) by lia.
    apply lookup_lt_is_Some. unfold Py.len in *. lia. }
  eexists _, _, _. split; [done |]. rewrite Hrun.
  assert (out = data) as ->; [| done].
  apply list_eq. intros i.
  destruct (decide (Z.of_nat i < Py.len data)) as [Hi | Hi].
  - specialize (Hbytes (Z.of_nat i) ltac:(lia)).
    rewrite Nat2Z.id in Hbytes. rewrite Hbytes.
    rewrite (written_bytes _ _ _ _ _ _ Hcs Hreach Hw) by lia.
    by rewrite Nat2Z.id.
  - rewrite !lookup_ge_None_2; [done | |]; unfold Py.len in *; lia.
Qed.

Lemma lengths_insert (s : store) k0 v0 cs :
  Py.len v0 <= cs -> (forall k v, s !! k = Some v -> Py.len v <= cs) ->
  forall k v, (<[k0 := v0]> s : store) !! k = Some v -> Py.len v <= cs.
Proof.
  intros H0 Hs k v. rewrite lookup_insert. case_decide; [| by apply Hs].
  by intros [= <-].
Qed.

Lemma read_your_write_witness :
  (0 < 4 /\ _closed (set_cursor (init 4) 2) = false /\ b_abcd <> [] /\
   (forall k v, st_abcdefghi !! k = Some v -> Py.len v <= 4) /\
   (2 / 4 * 4 = 2
    \/ exists old, st_abcdefghi !! (2 / 4) = Some old
                   /\ 2 - 2 / 4 * 4 <= Py.len old)) /\
  exists self' db' r,
    write (set_cursor (init 4) 2) b_abcd st_abcdefghi = Ok (self', db') /\
    read (set_cursor (init 4) 2) (Some (Py.len b_abcd)) db' = Ok (b_abcd, r, db').
Proof.
  assert (forall k v, st_abcdefghi !! k = Some v -> Py.len v <= 4) as Hlen.
  { unfold st_abcdefghi, st_abcdefgh.
    repeat (apply lengths_insert; [vm_compute; discriminate |]).
    intros k v. by rewrite lookup_empty. }
  assert (2 / 4 * 4 = 2
          \/ exists old, st_abcdefghi !! (2 / 4) = Some old
                         /\ 2 - 2 / 4 * 4 <= Py.len old) as Hreach.
  { right. exists b_abcd. split; [reflexivity | vm_compute; discriminate]. }
  split.
  { split; [lia |]. split; [reflexivity |]. split; [discriminate |].
    split; [exact Hlen | exact Hreach]. }
  exact (read_your_write (set_cursor (init 4) 2) b_abcd st_abcdefghi
           ltac:(reflexivity) eq_refl ltac:(discriminate) Hlen Hreach).
Defined.

(** ** BlobManager *)

Section ManagerFacts.

Context `{Countable K}.

Implicit Types (db : gmap K store) (key : K) (s : store) (B : bytes).

Lemma subspace_insert db key key' s :
  BlobManager.subspace (<[key := s]> db) key'
  = if decide (key = key') then s else BlobManager.subspace db key'.
Proof.
  unfold BlobManager.subspace. rewrite lookup_insert.
  by destruct (decide (key = key')).
Qed.

(** The probe of [exists]: one pair when a chunk is stored, none
    otherwise. *)
Lemma probe_last s :
  Fdb.get_range None None 1 true s
  = Ok (match last (Fdb.keys s) with
        | Some h => Fdb.pairs s [h]
        | None => []
        end, s).
Proof.
  unfold Fdb.get_range. rewrite scan_all.
  destruct (last (Fdb.keys s)) as [h |] eqn:E.
  - apply last_Some in E as [l E]. by rewrite E, rev_unit.
  - apply last_None in E. by rewrite E.
Qed.

Lemma exists_run key db :
  BlobManager.exists_ key db
  = Ok (bool_decide (BlobManager.subspace db key <> ∅)).
Proof.
  unfold BlobManager.exists_. rewrite probe_last.
  set (s := BlobManager.subspace db key).
  destruct (last (Fdb.keys s)) as [h |] eqn:E.
  - apply last_Some in E as [l E].
    destruct (keys_snoc_highest _ _ _ E) as [[v Hv] _].
    rewrite (pairs_cons _ _ v) by done. simpl.
    rewrite bool_decide_eq_true_2; [done |].
    intros Hs. by rewrite Hs, lookup_empty in Hv.
  - apply last_None, keys_nil_empty in E. simpl.
    by rewrite bool_decide_eq_false_2 by (intros Hne; done).
Qed.

Lemma read_empty_blob cs :
  cs <> 0 -> read (init cs) None ∅ = Ok ([], init cs, ∅).
Proof.
  intros Hcs. unfold read, Fdb.transactional. cbn [init _closed _chunk_size _cursor].
  rewrite read_chunk_run by done. rewrite scan_unique with (l := []).
  - done.
  - constructor.
  - intros k. rewrite lookup_empty. split; [by intros ?%elem_of_nil | by intros [[? ?] _]].
Qed.

Lemma store_of_union_shorter cs A B :
  0 < cs -> Py.len A <= Py.len B ->
  store_of cs B ∪ store_of cs A = store_of cs B.
Proof.
  intros Hcs Hle. apply map_eq. intros k.
  rewrite lookup_union, !lookup_store_of by done.
  destruct (decide (0 <= k /\ k * cs < Py.len B)) as [Hk | Hk].
  - by rewrite union_Some_l.
  - rewrite decide_False by lia. done.
Qed.

End ManagerFacts.

(** X13.  [exists(key)] never raises and is [True] exactly when at least
    one chunk is stored under the key. *)
Theorem manager_exists_iff_chunk `{Countable K} (key : K) (db : gmap K store) :
  exists b,
    BlobManager.exists_ key db = Ok b /\
    (b = true <->
     exists k v, BlobManager.subspace db key !! k = Some v).
Proof.
  rewrite exists_run. eexists. split; [done |].
  rewrite bool_decide_eq_true. split.
  - intros Hne. apply map_choose in Hne as (k & v & Hkv). eauto.
  - intros (k & v & Hkv) Hs. by rewrite Hs, lookup_empty in Hkv.
Qed.

(** X14.  [delete(key)] clears the blob: afterwards [exists(key)] is
    [False], the size of the blob is 0 and [read(key)] returns the empty
    string (for a chunk size other than 0); the chunks stored under other
    keys are as they were. *)
Theorem manager_delete_clears `{Countable K} (cs : Z) (key : K)
    (db : gmap K store) :
  cs <> 0 ->
  exists db',
    BlobManager.delete key db = Ok (tt, db') /\
    BlobManager.subspace db' key = ∅ /\
    BlobManager.exists_ key db' = Ok false /\
    _get_size cs (BlobManager.subspace db' key) = Ok (0, ∅) /\
    (exists db'', BlobManager.read cs key db' = Ok ([], db'')) /\
    forall key', key' <> key ->
      BlobManager.subspace db' key' = BlobManager.subspace db key'.
Proof.
  intros Hcs. exists (<[key := ∅]> db).
  assert (BlobManager.subspace (<[key := ∅]> db) key = ∅) as Hsub
    by (rewrite subspace_insert; by rewrite decide_True).
  split; [done |]. split; [done |]. split; [| split; [| split]].
  - rewrite exists_run, Hsub. by rewrite bool_decide_eq_false_2 by (intros Hne; done).
  - rewrite Hsub. apply get_size_empty.
  - unfold BlobManager.read, BlobManager.on_blob, with_handle,
      BlobManager.get_reader.
    rewrite Hsub, read_empty_blob by done. by eexists.
  - intros key' Hne. rewrite subspace_insert. by rewrite decide_False.
Qed.

Lemma manager_delete_clears_witness :
  4 <> 0 /\
  exists db',
    BlobManager.delete 7 (<[7 := st_abcdefg]> (∅ : gmap Z store)) = Ok (tt, db') /\
    BlobManager.subspace db' 7 = ∅ /\
    BlobManager.exists_ 7 db' = Ok false /\
    _get_size 4 (BlobManager.subspace db' 7) = Ok (0, ∅) /\
    (exists db'', BlobManager.read 4 7 db' = Ok ([], db'')) /\
    forall key', key' <> 7 ->
      BlobManager.subspace db' key'
      = BlobManager.subspace (<[7 := st_abcdefg]> (∅ : gmap Z store)) key'.
Proof. split; [lia | apply manager_delete_clears; lia]. Defined.

(** X15.  [write(key, data)] replaces a blob that is not longer than the
    data: when the chunks stored under the key satisfy the data model and
    hold at most [len(data)] bytes (in particular when there are none),
    the chunks after [write(key, data)] are the chunks of the data, and
    [read(key)] returns the data; [exists(key)] is then [True] exactly
    when the data is not empty. *)
Theorem manager_write_replaces `{Countable K} (cs : Z) (key : K) (B : bytes)
    (db : gmap K store) :
  0 < cs ->
  chunk_invariant cs (BlobManager.subspace db key) ->
  contiguous (BlobManager.subspace db key) ->
  Py.len (blob_bytes (BlobManager.subspace db key)) <= Py.len B ->
  exists db1 db2,
    BlobManager.write cs key B db = Ok (tt, db1) /\
    BlobManager.subspace db1 key = store_of cs B /\
    BlobManager.read cs key db1 = Ok (B, db2) /\
    BlobManager.exists_ key db1 = Ok (bool_decide (B <> [])).
Proof.
  intros Hcs Hinv Hcont Hle.
  pose proof (wf_store_of _ _ Hcs Hinv Hcont) as E.
  remember (blob_bytes (BlobManager.subspace db key)) as A eqn:HA. clear HA.
  assert (BlobManager.write cs key B db = Ok (tt, <[key := store_of cs B]> db))
    as Hw.
  { unfold BlobManager.write, BlobManager.on_blob, with_handle,
      BlobManager.get_writer, write, Fdb.transactional.
    cbn [init _closed _chunk_size _cursor]. rewrite E.
    rewrite write_aligned by (done || by rewrite Z.div_0_l by lia).
    rewrite Z.div_0_l by lia. fold (store_of cs B).
    by rewrite store_of_union_shorter by done. }
  assert (BlobManager.subspace (<[key := store_of cs B]> db) key = store_of cs B)
    as Hsub by (rewrite subspace_insert; by rewrite decide_True).
  eexists _, _. split; [exact Hw |]. split; [exact Hsub |]. split.
  - unfold BlobManager.read, BlobManager.on_blob, with_handle,
      BlobManager.get_reader.
    rewrite Hsub.
    rewrite (read_None_store_of (init cs)) by (done || simpl; lia).
    by rewrite drop_0.
  - rewrite exists_run, Hsub. f_equal. apply bool_decide_ext. split.
    + intros Hne ->. by rewrite store_of_nil in Hne.
    + intros Hne Hs. apply Hne.
      assert (store_of cs B !! 0 = None) as H0 by (by rewrite Hs, lookup_empty).
      rewrite lookup_store_of in H0 by done.
      case_decide as Hd; [done |]. apply len_nil_inv.
      pose proof (len_nonneg B). lia.
Qed.

Lemma manager_write_replaces_witness :
  (0 < 4 /\
   chunk_invariant 4 (BlobManager.subspace (<[7 := st_abcdefg]> (∅ : gmap Z store)) 7) /\
   contiguous (BlobManager.subspace (<[7 := st_abcdefg]> (∅ : gmap Z store)) 7) /\
   Py.len (blob_bytes (BlobManager.subspace (<[7 := st_abcdefg]> (∅ : gmap Z store)) 7))
   <= Py.len b_abcdefgh) /\
  exists db1 db2,
    BlobManager.write 4 7 b_abcdefgh (<[7 := st_abcdefg]> (∅ : gmap Z store))
    = Ok (tt, db1) /\
    BlobManager.subspace db1 7 = store_of 4 b_abcdefgh /\
    BlobManager.read 4 7 db1 = Ok (b_abcdefgh, db2) /\
    BlobManager.exists_ 7 db1 = Ok (bool_decide (b_abcdefgh <> [])).
Proof.
  assert (BlobManager.subspace (<[7 := st_abcdefg]> (∅ : gmap Z store)) 7
          = store_of 4 b_abcdefg) as E by (vm_compute; reflexivity).
  assert (chunk_invariant 4
            (BlobManager.subspace (<[7 := st_abcdefg]> (∅ : gmap Z store)) 7))
    as Hinv by (rewrite E; apply store_of_chunk_invariant; lia).
  assert (contiguous
            (BlobManager.subspace (<[7 := st_abcdefg]> (∅ : gmap Z store)) 7))
    as Hcont by (rewrite E; apply store_of_contiguous; lia).
  assert (Py.len (blob_bytes
                    (BlobManager.subspace (<[7 := st_abcdefg]> (∅ : gmap Z store)) 7))
          <= Py.len b_abcdefgh) as Hle by (vm_compute; discriminate).
  split; [split; [lia | split; [exact Hinv | split; [exact Hcont | exact Hle]]] |].
  exact (manager_write_replaces 4 7 b_abcdefgh _ ltac:(lia) Hinv Hcont Hle).
Defined.

Lemma manager_exists_iff_chunk_witness :
  exists b,
    BlobManager.exists_ 7 (<[7 := st_abcdefg]> (∅ : gmap Z store)) = Ok b /\
    (b = true <->
     exists k v,
       BlobManager.subspace (<[7 := st_abcdefg]> (∅ : gmap Z store)) 7 !! k
       = Some v).
Proof. exact (manager_exists_iff_chunk 7 (<[7 := st_abcdefg]> (∅ : gmap Z store))). Defined.

(** ** Size *)

(** X16.  On a blob that satisfies the data model, [size()] is the number
    of bytes of the blob, which is what [read()] from offset 0 returns. *)
Theorem size_is_byte_count (self : BlobIO) (db : store) :
  0 < _chunk_size self -> _closed self = false -> _cursor self = 0 ->
  chunk_invariant (_chunk_size self) db -> contiguous db ->
  exists out r,
    read self None db = Ok (out, r, db) /\
    _get_size (_chunk_size self) db = Ok (Py.len out, db).
Proof.
  intros Hcs Hopen Hcur Hinv Hcont.
  pose proof (wf_store_of _ _ Hcs Hinv Hcont) as E.
  remember (blob_bytes db) as B eqn:HB. clear HB. subst db.
  eexists _, _. rewrite read_None_store_of by (done || lia).
  split; [done |]. rewrite Hcur, drop_0. by apply size_store_of.
Qed.

Lemma size_is_byte_count_witness :
  (0 < 4 /\ _closed (init 4) = false /\ _cursor (init 4) = 0 /\
   chunk_invariant 4 st_abcdefg /\ contiguous st_abcdefg) /\
  exists out r,
    read (init 4) None st_abcdefg = Ok (out, r, st_abcdefg) /\
    _get_size 4 st_abcdefg = Ok (Py.len out, st_abcdefg).
Proof.
  assert (st_abcdefg = store_of 4 b_abcdefg) as E by (vm_compute; reflexivity).
  assert (chunk_invariant 4 st_abcdefg) as Hinv
    by (rewrite E; apply store_of_chunk_invariant; lia).
  assert (contiguous st_abcdefg) as Hcont
    by (rewrite E; apply store_of_contiguous; lia).
  split.
  { split; [lia |]. split; [reflexivity |]. split; [reflexivity |].
    split; [exact Hinv | exact Hcont]. }
  exact (size_is_byte_count (init 4) st_abcdefg
           ltac:(reflexivity) eq_refl eq_refl Hinv Hcont).
Defined.

(** ** Chunk size 0 *)

Section ZeroChunkSize.

Lemma write_rec_zero d cursor data (s : store) :
  _write_rec (S d) 0 cursor data s = Raise ZeroDivisionError.
Proof. reflexivity. Qed.

Lemma write_zero cursor data (s : store) :
  _write 0 cursor data s = Raise ZeroDivisionError.
Proof. unfold _write, recursion_limit. apply write_rec_zero. Qed.

End ZeroChunkSize.

(** X17.  A handle made with chunk size 0 cannot read or write: every
    [read] and every [write] on it raises [ZeroDivisionError], whatever
    the arguments and the store, and stores nothing; [seek] is not
    affected. *)
Theorem zero_chunk_size_raises (self : BlobIO) (size : option Z) (data : bytes)
    (cursor : Z) (db : store) :
  _chunk_size self = 0 -> _closed self = false ->
  read self size db = Raise ZeroDivisionError /\
  write self data db = Raise ZeroDivisionError /\
  exec (OpWrite data) (self, db) = (self, db) /\
  exists self', seek self cursor SEEK_SET db = Ok (self', db).
Proof.
  intros Hcs Hopen.
  assert (write self data db = Raise ZeroDivisionError) as Hw.
  { unfold write, Fdb.transactional. by rewrite Hopen, Hcs, write_zero. }
  split; [| split; [exact Hw | split]].
  - unfold read, Fdb.transactional, _read_chunk, Fdb.bind, Fdb.lift, Py.div.
    by rewrite Hopen, Hcs.
  - unfold exec. cbn [fst snd]. by rewrite Hw.
  - unfold seek, Fdb.transactional, _seek, Fdb.bind. rewrite Hopen.
    destruct (get_size_total (_chunk_size self) db) as [l ->]. by eexists.
Qed.

Lemma zero_chunk_size_raises_witness :
  (_chunk_size (init 0) = 0 /\ _closed (init 0) = false) /\
  read (init 0) None st_abcdefg = Raise ZeroDivisionError /\
  write (init 0) b_X st_abcdefg = Raise ZeroDivisionError /\
  exec (OpWrite b_X) (init 0, st_abcdefg) = (init 0, st_abcdefg) /\
  exists self', seek (init 0) 3 SEEK_SET st_abcdefg = Ok (self', st_abcdefg).
Proof.
  split; [split; reflexivity |].
  exact (zero_chunk_size_raises (init 0) None b_X 3 st_abcdefg eq_refl eq_refl).
Defined.

(** ** fdbfs.blob *)

(** X18.  The reader of [fdbfs.blob] returns one chunk: after a fresh
    writer of that module has written [B] to the empty blob ([tell()] is
    then [len(B)]), [read] on a reader moved to [c >= 0] returns the whole
    stored chunk that holds offset [c], from the start of that chunk and
    whatever [size] is, or the absent value when the blob ends before that
    chunk; the reader's cursor stays where it was.  So [read()] on a fresh
    reader returns [B] exactly when [B] is not empty and fits in one
    chunk. *)
Theorem fdbfs_read_returns_one_chunk (cs c : Z) (size : option Z) (B : bytes) :
  0 < cs -> 0 <= c ->
  exists w db,
    Fdbfs.write (Fdbfs.writer_init cs) B ∅ = Ok (w, db) /\
    Fdbfs.writer_tell w = Py.len B /\
    Fdbfs.read (Fdbfs.seek (Fdbfs.reader_init cs) c) size db
    = Ok (if decide (c / cs * cs < Py.len B)
          then Some (take (Z.to_nat cs) (drop (Z.to_nat (c / cs * cs)) B))
          else None,
          Fdbfs.seek (Fdbfs.reader_init cs) c, db) /\
    (Fdbfs.read (Fdbfs.reader_init cs) size db
     = Ok (Some B, Fdbfs.reader_init cs, db)
     <-> 0 < Py.len B <= cs).
Proof.
  intros Hcs Hc. pose proof (len_nonneg B) as HL.
  assert (0 <= c / cs) as Hj by (apply Z.div_pos; lia).
  unfold Fdbfs.write, Fdbfs.read, Fdbfs._read_chunk, Fdbfs.writer_init,
    Fdbfs.reader_init, Fdbfs.seek, Fdbfs.writer_tell, Fdb.transactional,
    Fdb.bind, Fdb.lift, Py.div, Fdb.get.
  cbn [Fdbfs.writer_chunk_size Fdbfs.writer_cursor Fdbfs.reader_chunk_size
         Fdbfs.reader_cursor].
  rewrite write_aligned by (done || by rewrite Z.div_0_l by lia).
  rewrite Z.div_0_l by lia. rewrite (right_id_L ∅ (∪)).
  fold (store_of cs B).
  destruct (Z.eqb_spec cs 0) as [| _]; [lia |].
  eexists _, _. split; [done |]. split; [done |]. split.
  - rewrite lookup_store_of by done. do 2 f_equal.
    destruct (decide (c / cs * cs < Py.len B)).
    + rewrite decide_True by lia. by rewrite chunk_of_nonneg by done.
    + by rewrite decide_False by lia.
  - rewrite lookup_store_of by done. rewrite Z.mul_0_l.
    destruct (decide (0 < Py.len B)) as [Hpos | Hz].
    + rewrite decide_True by lia. rewrite chunk_of_nonneg by (done || lia).
      rewrite Z.mul_0_l, drop_0. split.
      * intros [= Heq]. apply (f_equal Py.len) in Heq.
        rewrite len_take in Heq by lia. lia.
      * intros Hle. rewrite take_ge by (unfold Py.len in *; lia). done.
    + rewrite decide_False by lia. split; [done | lia].
Qed.

Lemma fdbfs_read_returns_one_chunk_witness :
  (0 < 4 /\ 0 <= 2) /\
  exists w db,
    Fdbfs.write (Fdbfs.writer_init 4) b_abcdefg ∅ = Ok (w, db) /\
    Fdbfs.writer_tell w = Py.len b_abcdefg /\
    Fdbfs.read (Fdbfs.seek (Fdbfs.reader_init 4) 2) None db
    = Ok (if decide (2 / 4 * 4 < Py.len b_abcdefg)
          then Some (take (Z.to_nat 4) (drop (Z.to_nat (2 / 4 * 4)) b_abcdefg))
          else None,
          Fdbfs.seek (Fdbfs.reader_init 4) 2, db) /\
    (Fdbfs.read (Fdbfs.reader_init 4) None db
     = Ok (Some b_abcdefg, Fdbfs.reader_init 4, db)
     <-> 0 < Py.len b_abcdefg <= 4).
Proof.
  split; [lia |].
  exact (fdbfs_read_returns_one_chunk 4 2 None b_abcdefg ltac:(lia) ltac:(lia)).
Defined.
